(** * Mini-NDN: the [Minindn] wrapper class of [minindn/minindn.py]

    A shallow embedding of the topology-file parser ([processTopo]), of the
    automatic point-to-point addressing ([ethernetPairConnectivity]), of the
    constructor up to the addressing step and of [stop], together with the
    properties the specification states about them.

    Python objects that are only passed around (nodes, interfaces, cleanup
    callbacks) are references.  A call into a collaborator (the emulation
    library, a registered callback, the logger, the operating system) is
    recorded, in order, as an event, and is taken to return, except for
    [shutil.move], whose failures are an input of [stop]; what the modelled
    code itself raises or exits with is kept as its outcome. *)

From Stdlib Require Import ZArith Lia Ascii.
From stdpp Require Import base option list strings pretty gmap.

Local Open Scope Z_scope.

(** ** Python outcomes: returning, raising, exiting *)

Module Py.

(** The exceptions that the modelled code can raise. *)
Inductive Exn : Type :=
| NoSectionError (section : string)
| IndexError
| AttributeError
| ValueError
| shutil_Error
| OSError.

Inductive Outcome (A : Type) : Type :=
| Returned (a : A)
| Raised (e : Exn)
| Exited (status : Z).
Arguments Returned {A} a.
Arguments Raised {A} e.
Arguments Exited {A} status.

(** [s.split(sep)] for a one-character separator: every occurrence of the
    separator cuts, so the result is never empty and may hold empty
    strings. *)
Fixpoint split (sep : Ascii.ascii) (s : string) : list string :=
  match s with
  | EmptyString => [EmptyString]
  | String c s' =>
      if Ascii.eqb c sep then EmptyString :: split sep s'
      else match split sep s' with
           | [] => [String c EmptyString]
           | w :: ws => String c w :: ws
           end
  end.

(** The separator does not occur in the string. *)
Fixpoint no_sep (sep : Ascii.ascii) (s : string) : bool :=
  match s with
  | EmptyString => true
  | String c s' => negb (Ascii.eqb c sep) && no_sep sep s'
  end.

(** [l[0]] on the result of a split, which always has a first element. *)
Definition first (l : list string) : string := default EmptyString (head l).

(** [str(x)] as used by [format] on a value that may be [None]. *)
Definition str (x : option string) : string := default "None" x.

(** *** [int(s)] on a string, base ten

    Strings here are ASCII strings.  Surrounding white space (the blank
    and the control characters tab to carriage return) is dropped, one
    sign is allowed, and the digits may be grouped by single
    underscores. *)
Definition is_space (c : Ascii.ascii) : bool :=
  let n := nat_of_ascii c in
  ((9 <=? n) && (n <=? 13) || (n =? 32))%nat.

Definition digit (c : Ascii.ascii) : option Z :=
  let n := nat_of_ascii c in
  if ((48 <=? n) && (n <=? 57))%nat then Some (Z.of_nat n - 48) else None.

Fixpoint lstrip (s : string) : string :=
  match s with
  | String c s' => if is_space c then lstrip s' else s
  | EmptyString => EmptyString
  end.

Definition strip (s : string) : string :=
  String.rev (lstrip (String.rev (lstrip s))).

(** [digits acc after_digit s]: reads the remaining digits; an underscore is
    accepted only between two digits. *)
Fixpoint digits (acc : Z) (after_digit : bool) (s : string) : option Z :=
  match s with
  | EmptyString => if after_digit then Some acc else None
  | String c s' =>
      match digit c with
      | Some d => digits (10 * acc + d) true s'
      | None =>
          if Ascii.eqb c "_"%char && after_digit then
            match s' with
            | String c' _ =>
                match digit c' with
                | Some _ => digits acc false s'
                | None => None
                end
            | EmptyString => None
            end
          else None
      end
  end.

Definition unsigned (s : string) : option Z :=
  match s with
  | String c _ =>
      match digit c with
      | Some _ => digits 0 false s
      | None => None
      end
  | EmptyString => None
  end.

Definition int (s : string) : option Z :=
  match strip s with
  | String "+"%char s' => unsigned s'
  | String "-"%char s' => Z.opp <$> unsigned s'
  | s' => unsigned s'
  end.

(** *** Effects

    A computation yields an outcome and the calls it has issued so far, in
    order.  Nothing runs after a [raise] or a [sys.exit]. *)
Section Effects.
Context {Ev : Type}.

Definition M (A : Type) : Type := Outcome A * list Ev.

Definition ret {A} (a : A) : M A := (Returned a, []).
Definition raise {A} (e : Exn) : M A := (Raised e, []).
Definition sys_exit {A} (status : Z) : M A := (Exited status, []).
Definition emit (e : Ev) : M unit := (Returned tt, [e]).

Definition bind {A B} (m : M A) (k : A → M B) : M B :=
  match m with
  | (Returned a, evs) => let '(o, evs') := k a in (o, evs ++ evs')
  | (Raised e, evs) => (Raised e, evs)
  | (Exited n, evs) => (Exited n, evs)
  end.

(** [subscript l i] is [l[i]] for a non-negative index. *)
Definition subscript {A} (l : list A) (i : nat) : M A :=
  match l !! i with
  | Some x => ret x
  | None => raise IndexError
  end.

(** [for x in l: s = body s x], the loop state passed along. *)
Fixpoint for_each {S B} (l : list B) (body : S → B → M S) (s : S) : M S :=
  match l with
  | [] => ret s
  | x :: l' => bind (body s x) (for_each l' body)
  end.

(** [try: m  except NoSectionError: h]. *)
Definition except_NoSectionError {A} (m : M A) (h : string → M A) : M A :=
  match m.1 with
  | Raised (NoSectionError e) => bind (Returned tt, m.2) (λ _, h e)
  | _ => m
  end.
End Effects.

Arguments M Ev A : clear implicits.


End Py.

Global Instance M_ret {Ev} : MRet (Py.M Ev) := @Py.ret Ev.
Global Instance M_bind {Ev} : MBind (Py.M Ev) := λ A B k m, Py.bind m k.

(** ** [mininet.util]: addresses as numbers and as dotted strings

    The address helpers of the emulation library, which the addressing
    routine calls on every allocation. *)

Module MininetUtil.

(** [ipNum(w, x, y, z)]: [(w << 24) | (x << 16) | (y << 8) | z]. *)
Definition ipNum (w x y z : Z) : Z :=
  Z.lor (Z.lor (Z.lor (Z.shiftl w 24) (Z.shiftl x 16)) (Z.shiftl y 8)) z.

(** [ipStr(ip)]: the four low bytes of [ip], printed in decimal and joined by dots. *)
Definition ipStr (ip : Z) : string :=
  let w := Z.land (Z.shiftr ip 24) 255 in
  let x := Z.land (Z.shiftr ip 16) 255 in
  let y := Z.land (Z.shiftr ip 8) 255 in
  let z := Z.land ip 255 in
  pretty w +:+ "." +:+ pretty x +:+ "." +:+ pretty y +:+ "." +:+ pretty z.

(** [ipParse(ip)]: [int] of every dot-separated field, zeros inserted
    before the last field until there are four, then [ipNum] on the four
    numbers.  A field that is no number, or more than four fields, make
    the call fail.  [pad] is the insertion loop; it runs at most four
    times. *)
Fixpoint pad (fuel : nat) (args : list Z) : list Z :=
  match fuel with
  | O => args
  | S fuel' =>
      if (length args <? 4)%nat
      then pad fuel' (take (length args - 1) args ++ 0 :: drop (length args - 1) args)
      else args
  end.

Definition ipParse (ip : string) : option Z :=
  args ← mapM Py.int (Py.split "." ip);
  match pad 4 args with
  | [w; x; y; z] => Some (ipNum w x y z)
  | _ => None
  end.

(** A byte prints without a dot and reads back as itself. *)
Definition octet_ok (n : nat) : bool :=
  Py.no_sep "." (pretty (Z.of_nat n))
  && bool_decide (Py.int (pretty (Z.of_nat n)) = Some (Z.of_nat n)).

End MininetUtil.

(** ** The [Minindn] class *)

Module Minindn.
Import Py.

(** *** Objects of the emulation library *)

Definition NodeRef := nat.
Definition IntfRef := nat.
Definition Callback := nat.

(** A link knows its two interfaces, [link.intf1] and [link.intf2]. *)
Record Link : Type := mkLink { intf1 : IntfRef; intf2 : IntfRef }.

(** A network: [net.hosts], [net.switches], and for the objects reached
    from them [host.intfList()], [intf.link], [intf.node], [node.name] and
    [isinstance(node, Switch)].  Every interface that [intfList] returns
    was made by a link, so that [intf.link] is a link. *)
Record Mininet : Type := mkMininet {
  hosts : list NodeRef;
  switches : list NodeRef;
  intfList : NodeRef → list IntfRef;
  link : IntfRef → Link;
  node : IntfRef → NodeRef;
  name : NodeRef → string;
  isSwitch : NodeRef → bool
}.

(** Calls issued to collaborators, in the order they are issued. *)
Inductive Event : Type :=
| info (msg : string)
| error (msg : string)
| setIP (n : NodeRef) (ip : string) (intf : IntfRef)
| setParam (host : NodeRef) (key value : string)
| cmd (host : NodeRef) (line : string)
| cleanup (c : Callback)
| net_stop
| os_system (line : string)
| shutil_move (src dst : string).

Definition nl : string := String (ascii_of_nat 10) EmptyString.

(** *** [ethernetPairConnectivity] *)

Definition raise_if_none {A} (e : Exn) (x : option A) : M Event A :=
  match x with
  | Some a => mret a
  | None => raise e
  end.

(** The body of the inner loop; the loop state is the pair of the local
    variables [ndnNetBase] and [interfaces]. *)
Definition visit (net : Mininet) (st : string * list IntfRef) (intf : IntfRef)
  : M Event (string * list IntfRef) :=
  let '(ndnNetBase, interfaces) := st in
  let link := link net intf in
  let node1 := node net (intf1 link) in
  let node2 := node net (intf2 link) in
  if isSwitch net node1 || isSwitch net node2 then mret st
  else if bool_decide (intf1 link ∉ interfaces) && bool_decide (intf2 link ∉ interfaces) then
    let interfaces := interfaces ++ [intf1 link] in
    let interfaces := interfaces ++ [intf2 link] in
    base ← raise_if_none ValueError (MininetUtil.ipParse ndnNetBase);
    emit (setIP node1 (MininetUtil.ipStr (base + 1) +:+ "/30") (intf1 link));;
    base ← raise_if_none ValueError (MininetUtil.ipParse ndnNetBase);
    emit (setIP node2 (MininetUtil.ipStr (base + 2) +:+ "/30") (intf2 link));;
    base ← raise_if_none ValueError (MininetUtil.ipParse ndnNetBase);
    mret (MininetUtil.ipStr (base + 4), interfaces)
  else mret st.

Definition ethernetPairConnectivity (net : Mininet) : M Event unit :=
  for_each (hosts net)
    (λ st host, for_each (intfList net host) (visit net) st)
    ("10.0.0.0", []);;
  mret tt.

(** *** The topology file and the declarative topology *)

(** [config.items(section)]: the entries that the parser answers for a
    section, in order, each a key and its value, the defaults of the file
    included.  A section that the file does not have is absent from the
    map.  The parser stores [None] for a key written without a value, and
    [items] hands it out as the empty string, so that on a file every
    value is [Some] string; the code is modelled on [None] too.  Of the
    failures of [items] only the missing section is modelled. *)
Abbreviation Items := (list (string * option string)).

Definition config_items (config : gmap string Items) (section : string)
  : M Event Items :=
  raise_if_none (NoSectionError section) (config !! section).

Section Topology.
(** Python floats and the two conversions to them. *)
Variable F : Type.
Variable float_of_str : string → option F.
Variable float_of_int : Z → F.

(** The value of a link parameter: a string, an [int] or a [float]. *)
Inductive Value : Type :=
| VStr (s : string)
| VInt (n : Z)
| VFloat (x : F).

(** What [Topo] has been asked to declare, in call order.  What [Topo]
    makes of a declaration (it refuses a link to a name that was not
    declared) is the library's and not modelled. *)
Inductive Decl : Type :=
| addHost (name : string) (params : gmap string string)
| addSwitch (name : string)
| addLink (node1 node2 : string) (params : gmap string Value).

Definition Topo : Type := list Decl.

(** [value.split(' ')] on an entry's value. *)
Definition tokens (value : option string) : M Event (list string) :=
  v ← raise_if_none AttributeError value;
  mret (split " " v).

(** [params[param.split('=')[0]] = param.split('=')[1]], the right-hand
    side first. *)
Definition nodeParam (params : gmap string string) (param : string)
  : M Event (gmap string string) :=
  if bool_decide (param = "_") then mret params
  else
    v ← subscript (split "=" param) 1;
    mret (<[first (split "=" param) := v]> params).

Definition duplicate_message (value : option string) : string :=
  "FATAL: Duplicate Coordinate, '" +:+ str value +:+ "' used by multiple nodes" +:+ nl.

(** The body of the loop over the nodes section; the loop state is the
    list [coordinates] and the topology built so far. *)
Definition nodeItem (st : list (option string) * Topo) (item : string * option string)
  : M Event (list (option string) * Topo) :=
  let '(coordinates, topo) := st in
  let name := first (split ":" item.1) in
  if bool_decide (item.2 ∈ coordinates) && bool_decide (item.2 ≠ Some "_") then
    emit (error (duplicate_message item.2));;
    sys_exit 1
  else
    let coordinates := coordinates ++ [item.2] in
    ps ← tokens item.2;
    params ← for_each ps nodeParam ∅;
    mret (coordinates, topo ++ [addHost name params]).

Definition switchItem (topo : Topo) (item : string * option string) : M Event Topo :=
  let name := first (split ":" item.1) in
  mret (topo ++ [addSwitch name]).

Definition py_int (value : string) : M Event Value :=
  raise_if_none ValueError (VInt <$> int value).

(** [float(value)] on whatever [value] holds at that point. *)
Definition py_float (value : Value) : M Event Value :=
  match value with
  | VStr s => raise_if_none ValueError (VFloat <$> float_of_str s)
  | VInt n => mret (VFloat (float_of_int n))
  | VFloat x => mret (VFloat x)
  end.

Definition linkParam (params : gmap string Value) (param : string)
  : M Event (gmap string Value) :=
  let key := first (split "=" param) in
  value ← subscript (split "=" param) 1;
  value ← (if bool_decide (key ∈ ["bw"; "jitter"; "max_queue_size"])
           then py_int value else mret (VStr value));
  value ← (if bool_decide (key = "loss") then py_float value else mret value);
  mret (<[key := value]> params).

Definition linkItem (topo : Topo) (item : string * option string) : M Event Topo :=
  let link := split ":" item.1 in
  ps ← tokens item.2;
  params ← for_each ps linkParam ∅;
  node2 ← subscript link 1;
  mret (topo ++ [addLink (first link) node2 params]).

(** [processTopo], on what [config.read(topoFile)] has loaded. *)
Definition processTopo (config : gmap string Items) : M Event Topo :=
  let topo : Topo := [] in
  items ← config_items config "nodes";
  '(_, topo) ← for_each items nodeItem ([], topo);
  topo ← except_NoSectionError
            (items ← config_items config "switches";
             for_each items switchItem topo)
            (λ _, mret topo);
  items ← config_items config "links";
  for_each items linkItem topo.

(** *** The constructor and [stop] *)

(** The parsed command line: [args.topoFile], [args.workDir] (made
    absolute) and [args.resultDir]. *)
Record Args : Type := mkArgs {
  args_topoFile : string;
  args_workDir : string;
  args_resultDir : option string
}.

(** The class attributes [Minindn.workDir] and [Minindn.resultDir]. *)
Record ClassAttrs : Type := mkClassAttrs {
  workDir : string;
  resultDir : option string
}.

(** The attributes of a [Minindn] object. *)
Record Self : Type := mkSelf {
  self_topoFile : string;
  self_topo : option Topo;
  self_net : Mininet;
  self_cleanups : list Callback
}.

(** What [config.read] loads from a file, the network that the library
    builds for a topology (or for none) and what [glob.glob] answers. *)
Variable read_config : string → gmap string Items.
Variable build : option Topo → Mininet.
Variable glob : string → list string.

(** Whether [shutil.move(file, dir)] raises, and what, once the files
    of [moved] have been moved by the same loop: [shutil.Error] when
    [dir] already holds an entry of that name, an [OSError] when the
    file system refuses. *)
Variable shutil_move_raises : list string → string → string → option Exn.

Definition initParams (cls : ClassAttrs) (net : Mininet) (nodes : list NodeRef)
  : M Event unit :=
  for_each nodes
    (λ _ host,
       emit (setParam host "workDir" (workDir cls));;
       let homeDir := workDir cls +:+ "/" +:+ name net host in
       emit (setParam host "homeDir" homeDir);;
       emit (cmd host ("mkdir -p " +:+ homeDir));;
       emit (cmd host ("export HOME=" +:+ homeDir +:+ " && cd ~")))
    tt.

(** [not topoFile]: [None] and the empty string are false. *)
Definition falsy (x : option string) : bool :=
  match x with
  | None | Some EmptyString => true
  | Some _ => false
  end.

(** The [if topo is None and not noTopo] statement of [__init__]: what
    becomes of [self.topo]. *)
Definition settle_topo (topoFile : string) (topo : option Topo) (noTopo : bool)
  : M Event (option Topo) :=
  if bool_decide (topo = None) && negb noTopo then
    except_NoSectionError
      (emit (info ("Generating topology frp, file " +:+ topoFile +:+ nl));;
       t ← processTopo (read_config topoFile);
       mret (Some t))
      (λ e,
         emit (info ("Error reading config file: No section: '"
                     +:+ e +:+ "'" +:+ nl));;
         sys_exit 1)
  else mret topo.

(** [__init__], up to and including the addressing step; the probe of
    the key chain that follows it issues none of the calls above. *)
Definition init (args : Args) (topo : option Topo) (topoFile : option string)
    (noTopo : bool) : M Event (ClassAttrs * Self) :=
  let cls := mkClassAttrs (args_workDir args) (args_resultDir args) in
  let topoFile := if falsy topoFile then args_topoFile args else str topoFile in
  topo ← settle_topo topoFile topo noTopo;
  let net := if negb noTopo then build topo else build None in
  initParams cls net (hosts net);;
  let cleanups : list Callback := [] in
  (if bool_decide (switches net = []) then ethernetPairConnectivity net
   else mret tt);;
  mret (cls, mkSelf topoFile topo net cleanups).

(** The body of the loop of [stop]; the loop state is the list of the
    files moved so far. *)
Definition move (dir : string) (moved : list string) (file : string)
  : M Event (list string) :=
  emit (shutil_move file dir);;
  match shutil_move_raises moved file dir with
  | Some e => raise e
  | None => mret (moved ++ [file])
  end.

Definition stop (cls : ClassAttrs) (self : Self) : M Event unit :=
  for_each (self_cleanups self) (λ _ c, emit (cleanup c)) tt;;
  emit net_stop;;
  match resultDir cls with
  | Some dir =>
      emit (info ("Moving results to '" +:+ dir +:+ "'" +:+ nl));;
      emit (os_system ("mkdir -p " +:+ dir));;
      for_each (glob (workDir cls +:+ "/*")) (move dir) [];;
      mret tt
  | None => mret tt
  end.

End Topology.

Arguments VStr {F} s.
Arguments VInt {F} n.
Arguments VFloat {F} x.
Arguments addHost {F} name params.
Arguments addSwitch {F} name.
Arguments addLink {F} node1 node2 params.
Arguments mkSelf {F} _ _ _ _.
Arguments self_topoFile {F} _.
Arguments self_topo {F} _.
Arguments self_net {F} _.
Arguments self_cleanups {F} _.
Arguments nodeItem {F} st item.
Arguments switchItem {F} topo item.
Arguments py_int {F} value.
Arguments py_float {F} float_of_str float_of_int value.
Arguments linkParam {F} float_of_str float_of_int params param.
Arguments linkItem {F} float_of_str float_of_int topo item.
Arguments processTopo {F} float_of_str float_of_int config.
Arguments init {F} float_of_str float_of_int read_config build args topo topoFile noTopo.
Arguments stop {F} glob shutil_move_raises cls self.
Arguments settle_topo {F} float_of_str float_of_int read_config topoFile topo noTopo.

(** *** The addressing routine, read as a function of its walk *)

(** The interfaces in the order the two loops meet them. *)
Definition walk (net : Mininet) : list IntfRef :=
  hosts net ≫= intfList net.

(** Neither end of the link is a switch. *)
Definition host_link (net : Mininet) (l : Link) : bool :=
  negb (isSwitch net (node net (intf1 l)) || isSwitch net (node net (intf2 l))).

(** The link of a visited interface gets a subnet. *)
Definition allocates (net : Mininet) (interfaces : list IntfRef) (l : Link) : bool :=
  host_link net l
  && bool_decide (intf1 l ∉ interfaces) && bool_decide (intf2 l ∉ interfaces).

(** The links that get a subnet, in allocation order. *)
Fixpoint allocation (net : Mininet) (interfaces : list IntfRef)
    (w : list IntfRef) : list Link :=
  match w with
  | [] => []
  | i :: w' =>
      let l := link net i in
      if allocates net interfaces l
      then l :: allocation net (interfaces ++ [intf1 l; intf2 l]) w'
      else allocation net interfaces w'
  end.

Definition allocated (net : Mininet) : list Link :=
  allocation net [] (walk net).

Definition ends (ls : list Link) : list IntfRef :=
  ls ≫= λ l, [intf1 l; intf2 l].

(** The address [10.0.0.0 + k] in dotted form, with the prefix length. *)
Definition address (k : Z) : string :=
  MininetUtil.ipStr (167772160 + k) +:+ "/30".

(** The two calls of the [n]-th, [n+1]-th, ... allocated pair. *)
Fixpoint pair_calls (net : Mininet) (n : nat) (ls : list Link) : list Event :=
  match ls with
  | [] => []
  | l :: ls' =>
      setIP (node net (intf1 l)) (address (4 * Z.of_nat n + 1)) (intf1 l)
      :: setIP (node net (intf2 l)) (address (4 * Z.of_nat n + 2)) (intf2 l)
      :: pair_calls net (S n) ls'
  end.

(** The interfaces that the calls of a trace give an address to. *)
Definition assigned (evs : list Event) : list IntfRef :=
  omap (λ e, match e with setIP _ _ i => Some i | _ => None end) evs.

Definition is_setIP (e : Event) : bool :=
  match e with setIP _ _ _ => true | _ => false end.

(** A call that sets no address. *)
Definition quiet (e : Event) : Prop := is_setIP e = false.

Definition is_cleanup (e : Event) : bool :=
  match e with cleanup _ => true | _ => false end.

(** The calls that touch the file system. *)
Definition is_file_call (e : Event) : bool :=
  match e with os_system _ | shutil_move _ _ => true | _ => false end.

Global Instance Link_eq_dec : EqDecision Link.
Proof. solve_decision. Defined.

(** The two links have an interface in common. *)
Definition shares (a b : Link) : bool :=
  bool_decide (intf1 a = intf1 b) || bool_decide (intf1 a = intf2 b)
  || bool_decide (intf2 a = intf1 b) || bool_decide (intf2 a = intf2 b).

(** What the emulation library guarantees about the links met on the
    walk: a link has two different interfaces, and two links that have an
    interface in common are one link. *)
Definition well_formed (net : Mininet) : bool :=
  forallb
    (λ i, bool_decide (intf1 (link net i) ≠ intf2 (link net i))
          && forallb
               (λ j, implb (shares (link net i) (link net j))
                           (bool_decide (link net i = link net j)))
               (walk net))
    (walk net).

(** The address the specification names for the [n]-th pair. *)
Definition last_octet_address (n : nat) (k : Z) : string :=
  "10.0.0." +:+ pretty (4 * Z.of_nat n + k) +:+ "/30".

(** *** Reading the declarations off the file *)

(** How the value of a link parameter is typed by its key. *)
Definition coerced {F} (float_of_str : string → option F)
    (key value : string) (x : Value F) : Prop :=
  (key ∈ ["bw"; "jitter"; "max_queue_size"] → ∃ n, int value = Some n ∧ x = VInt n)
  ∧ (key = "loss" → ∃ f, float_of_str value = Some f ∧ x = VFloat f)
  ∧ (key ∉ ["bw"; "jitter"; "max_queue_size"] → key ≠ "loss" → x = VStr value).

(** The declaration made for an entry of the nodes section, told by the
    loop over its tokens. *)
Definition host_decl {F} (item : string * option string) (d : Decl F) : Prop :=
  ∃ v params,
    item.2 = Some v
    ∧ for_each (split " " v) nodeParam ∅ = (Returned params, [])
    ∧ d = addHost (first (split ":" item.1)) params.

(** The declaration made for an entry of the links section, told by the
    loop over its tokens. *)
Definition link_decl {F} (float_of_str : string → option F) (float_of_int : Z → F)
    (item : string * option string) (d : Decl F) : Prop :=
  ∃ v params node1 node2 rest,
    item.2 = Some v
    ∧ for_each (split " " v) (linkParam float_of_str float_of_int) ∅
      = (Returned params, [])
    ∧ split ":" item.1 = node1 :: node2 :: rest
    ∧ d = addLink node1 node2 params.

(** *** Well-formed entries of the topology file *)

(** A token of a node entry is [_] or has an [=]. *)
Definition node_token_ok (param : string) : bool :=
  bool_decide (param = "_") || bool_decide (1 < length (split "=" param))%nat.

Definition node_value_ok (value : option string) : bool :=
  match value with
  | Some v => forallb node_token_ok (split " " v)
  | None => false
  end.

(** *** Which files the parser accepts *)

(** The key and the value that a token contributes. *)
Definition key_value (param : string) : option (string * string) :=
  match split "=" param with
  | key :: value :: _ => Some (key, value)
  | _ => None
  end.

(** The keys and values of the tokens of a node entry, in file order. *)
Definition node_pairs (ps : list string) : list (string * string) :=
  omap key_value (filter (λ param, param ≠ "_") ps).

(** A token of a link entry has an [=], and its value converts when its
    key asks for a number. *)
Definition link_token_ok {F} (float_of_str : string → option F) (param : string)
  : bool :=
  match split "=" param with
  | key :: value :: _ =>
      if bool_decide (key ∈ ["bw"; "jitter"; "max_queue_size"])
      then bool_decide (is_Some (int value))
      else if bool_decide (key = "loss")
           then bool_decide (is_Some (float_of_str value))
           else true
  | _ => false
  end.

Definition link_item_ok {F} (float_of_str : string → option F)
    (item : string * option string) : bool :=
  match item.2 with
  | Some v =>
      forallb (link_token_ok float_of_str) (split " " v)
      && bool_decide (1 < length (split ":" item.1))%nat
  | None => false
  end.

(** The coordinates that count for the duplicate check. *)
Definition coordinates_of (values : list (option string)) : list (option string) :=
  filter (λ value, value ≠ Some "_") values.

Definition accepts {F} (float_of_str : string → option F)
    (config : gmap string Items) : bool :=
  match config !! "nodes", config !! "links" with
  | Some nodes, Some links =>
      forallb node_value_ok nodes.*2
      && bool_decide (NoDup (coordinates_of nodes.*2))
      && forallb (link_item_ok float_of_str) links
  | _, _ => false
  end.

(** *** The moves of [stop] *)

(** Every move of [files], made in this order, returns. *)
Definition moves_return (shutil_move_raises : list string → string → string → option Exn)
    (dir : string) (files : list string) : Prop :=
  ∀ done file rest,
    files = done ++ file :: rest → shutil_move_raises done file dir = None.

(** The calls that [stop] makes up to the point where it starts moving
    files. *)
Definition stop_calls (cleanups : list Callback) (dir : string) : list Event :=
  (cleanup <$> cleanups)
  ++ [net_stop;
      info ("Moving results to '" +:+ dir +:+ "'" +:+ nl);
      os_system ("mkdir -p " +:+ dir)].

(** *** The declaration that an entry stands for *)

(** The parameter dictionary of a node value: the keys and values of its
    tokens other than [_], a later token overriding an earlier one with
    the same key; none when a token has no [=]. *)
Definition node_params (value : string) : option (gmap string string) :=
  pairs ← mapM key_value (filter (λ param, param ≠ "_") (split " " value));
  Some (list_to_map (reverse pairs)).

(** The value of a link parameter as its key types it: an [int] for the
    keys bw, jitter and max_queue_size, a [float] for loss, the text
    itself for any other key. *)
Definition typed {F} (float_of_str : string → option F) (key value : string)
  : option (Value F) :=
  if bool_decide (key ∈ ["bw"; "jitter"; "max_queue_size"]) then VInt <$> int value
  else if bool_decide (key = "loss") then VFloat <$> float_of_str value
  else Some (VStr value).

Definition link_pair {F} (float_of_str : string → option F) (param : string)
  : option (string * Value F) :=
  kv ← key_value param;
  x ← typed float_of_str kv.1 kv.2;
  Some (kv.1, x).

(** The parameter dictionary of a link value; none when a token has no
    [=] or a number does not convert. *)
Definition link_params {F} (float_of_str : string → option F) (value : string)
  : option (gmap string (Value F)) :=
  pairs ← mapM (link_pair float_of_str) (split " " value);
  Some (list_to_map (reverse pairs)).

Definition host_of {F} (item : string * option string) : option (Decl F) :=
  value ← item.2;
  params ← node_params value;
  Some (addHost (first (split ":" item.1)) params).

Definition switch_of {F} (item : string * option string) : Decl F :=
  addSwitch (first (split ":" item.1)).

Definition link_of {F} (float_of_str : string → option F)
    (item : string * option string) : option (Decl F) :=
  value ← item.2;
  params ← link_params float_of_str value;
  match split ":" item.1 with
  | node1 :: node2 :: _ => Some (addLink node1 node2 params)
  | _ => None
  end.

(** The offsets from the base of the addresses of [len] pairs, from pair
    [n] on. *)
Fixpoint offsets (n len : nat) : list Z :=
  match len with
  | O => []
  | S len' => (4 * Z.of_nat n + 1) :: (4 * Z.of_nat n + 2) :: offsets (S n) len'
  end.

(** The text of the addresses that the calls of a trace set. *)
Definition addresses (evs : list Event) : list string :=
  omap (λ e, match e with setIP _ ip _ => Some ip | _ => None end) evs.

(** *** [verifyDependencies] *)

(** Calls issued by [verifyDependencies]. *)
Inductive Action : Type :=
| open_devnull
| close_devnull
| call (argv : list string)
| log_error (msg : string).

Section Helpers.
(** The exit status that [subprocess.call] returns for a command
    line. *)
Variable status : list string → Z.

Definition dependencies : list string :=
  ["nfd"; "nlsr"; "infoedit"; "ndnping"; "ndnpingserver"].

Definition missing_message (program : string) : string :=
  program +:+ " is missing from the system path! Exiting..." +:+ nl.

(** The body of the loop of [verifyDependencies]. *)
Definition verifyProgram (_ : unit) (program : string) : M Action unit :=
  emit (call ["which"; program]);;
  if bool_decide (status ["which"; program] ≠ 0) then
    emit (log_error (missing_message program));;
    sys_exit 1
  else mret tt.

Definition verifyDependencies : M Action unit :=
  emit open_devnull;;
  for_each dependencies verifyProgram tt;;
  emit close_devnull.

End Helpers.

End Minindn.

(** ** Sample inputs *)

Module Samples.
Import Minindn.

(** A line of [n] hosts: link [k] joins host [k] (interface [2k]) and host
    [k+1] (interface [2k+1]). *)
Definition chain (n : nat) : Mininet :=
  mkMininet (seq 0 n) []
    (λ h, (if (0 <? h)%nat then [(2 * (h - 1) + 1)%nat] else [])
          ++ (if (h + 1 <? n)%nat then [(2 * h)%nat] else []))
    (λ i, mkLink (2 * (i / 2))%nat (2 * (i / 2) + 1)%nat)
    (λ i, if Nat.even i then (i / 2)%nat else (i / 2 + 1)%nat)
    (λ h, "h" +:+ pretty h)
    (λ _, false).

(** Floats kept as the text they were read from. *)
Definition text_float (s : string) : option string := Some s.
Definition text_of_int (n : Z) : string := pretty n.

(** Two nodes without coordinates, one link. *)
Definition no_coordinates : gmap string Minindn.Items :=
  <["nodes" := [("a:", Some "_"); ("b:", Some "_")]]>
    (<["links" := [("a:b", Some "delay=10ms")]]> ∅).

(** Two nodes at the same place, no switches section. *)
Definition same_place : gmap string Minindn.Items :=
  <["nodes" := [("a:", Some "radius=1 angle=2"); ("b:", Some "radius=1 angle=2")]]>
    (<["links" := [("a:b", Some "delay=10ms")]]> ∅).

(** Three nodes, two links with typed parameters, no switches section. *)
Definition triangle : gmap string Minindn.Items :=
  <["nodes" := [("a:", Some "_"); ("b:", Some "radius=1 angle=2"); ("c:", Some "_")]]>
    (<["links" := [("a:b", Some "delay=10ms bw=10 loss=0.5");
                   ("b:c", Some "delay=5ms max_queue_size=100 jitter=1")]]> ∅).

(** A key written without a value, for which [items] gives the empty
    string, after a node that is fine. *)
Definition bare_node : gmap string Minindn.Items :=
  <["nodes" := [("a:", Some "_"); ("b:", Some "")]]> (<["links" := []]> ∅).

(** A machine on which everything but [nlsr] is installed. *)
Definition no_nlsr (argv : list string) : Z :=
  if bool_decide (argv = ["which"; "nlsr"]) then 1 else 0.

(** A machine on which everything is installed. *)
Definition all_installed (argv : list string) : Z := 0.

(** A working directory with three files, the second of which the
    result directory already holds. *)
Definition three_files (pattern : string) : list string :=
  ["/tmp/minindn/a"; "/tmp/minindn/b"; "/tmp/minindn/c"].

Definition b_is_there (moved : list string) (file dir : string) : option Py.Exn :=
  if bool_decide (file = "/tmp/minindn/b") then Some Py.shutil_Error else None.

Definition nothing_there (moved : list string) (file dir : string) : option Py.Exn :=
  None.

End Samples.

(** * Properties *)

(** ** The effect monad and the string helpers *)

Module PyFacts.
Import Py.

Lemma bind_Returned {Ev A B} (a : A) (evs : list Ev) (k : A → M Ev B) :
  (Returned a, evs) ≫= k = ((k a).1, evs ++ (k a).2).
Proof. unfold mbind, M_bind, bind. by destruct (k a). Qed.

Lemma bind_pure {Ev A B} (a : A) (k : A → M Ev B) :
  (Returned a, []) ≫= k = k a.
Proof. rewrite bind_Returned. by destruct (k a). Qed.

Lemma mret_eq {Ev A} (a : A) : (mret a : M Ev A) = (Returned a, []).
Proof. reflexivity. Qed.

Lemma mret_bind {Ev A B} (a : A) (k : A → M Ev B) :
  (mret a : M Ev A) ≫= k = k a.
Proof. apply bind_pure. Qed.

Lemma bind_Raised {Ev A B} e (evs : list Ev) (k : A → M Ev B) :
  (Raised e, evs) ≫= k = (Raised e, evs).
Proof. reflexivity. Qed.

Lemma bind_Exited {Ev A B} n (evs : list Ev) (k : A → M Ev B) :
  (Exited n, evs) ≫= k = (Exited n, evs).
Proof. reflexivity. Qed.

Lemma emit_bind {Ev B} (e : Ev) (k : unit → M Ev B) :
  emit e ≫= k = ((k tt).1, e :: (k tt).2).
Proof. unfold emit. by rewrite bind_Returned. Qed.

(** Closes a goal whose bind has stopped at a raise or an exit. *)
Ltac stopped := rewrite ?bind_Raised, ?bind_Exited; done.

(** Rewrites with the equation of a loop, whatever the way its arguments
    are written. *)
Ltac rewrite_loop H :=
  match type of H with
  | for_each ?l ?b ?s = _ =>
      match goal with
      | |- context [for_each l ?b' ?s'] =>
          change (for_each l b' s') with (for_each l b s); rewrite H
      end
  end.

Lemma bind_unfold {Ev A B} (m : M Ev A) (k : A → M Ev B) :
  bind m k = m ≫= k.
Proof. reflexivity. Qed.

Lemma bind_assoc {Ev A B C} (m : M Ev A) (k : A → M Ev B) (h : B → M Ev C) :
  (m ≫= k) ≫= h = m ≫= (λ a, k a ≫= h).
Proof.
  destruct m as [[a|e|n] evs]; [|reflexivity..].
  rewrite !bind_Returned. destruct (k a) as [[b|e|n] evs']; cbn [fst snd].
  - rewrite !bind_Returned. cbn [fst snd]. by rewrite app_assoc.
  - by rewrite !bind_Raised.
  - by rewrite !bind_Exited.
Qed.

(** A returning bind returns in both parts. *)
Lemma bind_Returned_inv {Ev A B} (m : M Ev A) (k : A → M Ev B) b evs :
  m ≫= k = (Returned b, evs) →
  ∃ a evs1 evs2, m = (Returned a, evs1) ∧ k a = (Returned b, evs2) ∧ evs = evs1 ++ evs2.
Proof.
  destruct m as [[a|e|n] evs1];
    [|rewrite ?bind_Raised, ?bind_Exited; intros [=]..].
  rewrite bind_Returned. destruct (k a) as [o evs2] eqn:Hk; simpl.
  intros [= -> <-]. by exists a, evs1, evs2.
Qed.

Lemma for_each_cons {Ev S B} x (l : list B) (body : S → B → M Ev S) s :
  for_each (x :: l) body s = body s x ≫= for_each l body.
Proof. reflexivity. Qed.

Lemma for_each_app {Ev S B} (l1 l2 : list B) (body : S → B → M Ev S) s :
  for_each (l1 ++ l2) body s = for_each l1 body s ≫= for_each l2 body.
Proof.
  revert s. induction l1 as [|x l1 IH]; intros s.
  - change (for_each l2 body s = (Returned s, []) ≫= for_each l2 body).
    by rewrite bind_pure.
  - rewrite <- app_comm_cons, !for_each_cons, bind_assoc.
    destruct (body s x) as [[a|e|n] evs]; [|reflexivity..].
    rewrite !bind_Returned. by rewrite IH.
Qed.

(** Two nested loops over one state are one loop over the joined list. *)
Lemma for_each_nested {Ev S B C} (l : list B) (inner : B → list C)
    (body : S → C → M Ev S) s :
  for_each l (λ st x, for_each (inner x) body st) s
  = for_each (l ≫= inner) body s.
Proof.
  revert s. induction l as [|x l IH]; intros s; [done|].
  rewrite for_each_cons. change ((x :: l) ≫= inner) with (inner x ++ (l ≫= inner)).
  rewrite for_each_app.
  destruct (for_each (inner x) body s) as [[a|e|n] evs]; [|reflexivity..].
  by rewrite !bind_Returned, IH.
Qed.

(** A loop that only issues one call per element. *)
Lemma for_each_emit {Ev B} (l : list B) (f : B → Ev) :
  for_each l (λ _ x, emit (f x)) tt = (Returned tt, f <$> l).
Proof.
  induction l as [|x l IH]; [done|].
  rewrite for_each_cons, emit_bind. by rewrite IH.
Qed.

Lemma for_each_silent {Ev S B} (l : list B) (body : S → B → M Ev S) s :
  (∀ s x, (body s x).2 = []) → (for_each l body s).2 = [].
Proof.
  intros H. revert s. induction l as [|x l IH]; intros s; [done|].
  rewrite for_each_cons. specialize (H s x).
  destruct (body s x) as [[a|e|n] evs]; simpl in H; subst evs; [|done..].
  rewrite bind_pure. apply IH.
Qed.

(** A loop whose body only issues calls that depend on the element. *)
Lemma for_each_calls {Ev B} (l : list B) (body : unit → B → M Ev unit)
    (f : B → list Ev) :
  (∀ x, body tt x = (Returned tt, f x)) →
  for_each l body tt = (Returned tt, l ≫= f).
Proof.
  intros H. induction l as [|x l IH]; [done|].
  by rewrite for_each_cons, H, bind_Returned, IH.
Qed.

(** A property of every call is kept by sequencing, loops and handlers. *)
Lemma bind_Forall {Ev A B} (P : Ev → Prop) (m : M Ev A) (k : A → M Ev B) :
  Forall P m.2 → (∀ a, Forall P (k a).2) → Forall P (m ≫= k).2.
Proof.
  intros Hm Hk. destruct m as [[a|e|n] evs]; [|done..].
  rewrite bind_Returned. apply Forall_app. split; [done|apply Hk].
Qed.

Lemma for_each_Forall {Ev S B} (P : Ev → Prop) (l : list B)
    (body : S → B → M Ev S) s :
  (∀ s x, Forall P (body s x).2) → Forall P (for_each l body s).2.
Proof.
  intros H. revert s. induction l as [|x l IH]; intros s; [by constructor|].
  rewrite for_each_cons. by apply bind_Forall.
Qed.

Lemma except_Forall {Ev A} (P : Ev → Prop) (m : M Ev A) (h : string → M Ev A) :
  Forall P m.2 → (∀ e, Forall P (h e).2) →
  Forall P (except_NoSectionError m h).2.
Proof.
  intros Hm Hh. unfold except_NoSectionError.
  destruct m as [[a|[s| | | | |]|n] evs]; try done.
  cbn [fst snd]. rewrite bind_unfold. apply bind_Forall; [done|]. intros _. apply Hh.
Qed.

Lemma filter_none {A} (f : A → bool) (l : list A) :
  Forall (λ x, f x = false) l → List.filter f l = [].
Proof.
  induction 1 as [|x l Hx _ IH]; [done|]. simpl. by rewrite Hx.
Qed.

Lemma split_nonempty sep s : split sep s ≠ [].
Proof.
  destruct s as [|c s]; simpl; [done|].
  destruct (Ascii.eqb c sep); [done|]. by destruct (split sep s).
Qed.

Lemma split_no_sep sep s : no_sep sep s = true → split sep s = [s].
Proof.
  induction s as [|c s IH]; simpl; [done|].
  destruct (Ascii.eqb c sep); simpl; [done|].
  intros Hs. by rewrite IH.
Qed.

Lemma app_String c s t : String c s +:+ t = String c (s +:+ t).
Proof. reflexivity. Qed.

Lemma app_empty t : EmptyString +:+ t = t.
Proof. reflexivity. Qed.

Lemma split_app sep s t :
  no_sep sep s = true →
  split sep (s +:+ String sep t) = s :: split sep t.
Proof.
  induction s as [|c s IH]; rewrite ?app_String, ?app_empty; simpl.
  - intros _. by rewrite Ascii.eqb_refl.
  - destruct (Ascii.eqb c sep); simpl; [done|].
    intros Hs. by rewrite IH.
Qed.

(** The first field of a split is the text before the first separator. *)
Lemma split_first sep s :
  no_sep sep (first (split sep s)) = true
  ∧ (s = first (split sep s)
     ∨ ∃ rest, s = first (split sep s) +:+ String sep rest).
Proof.
  induction s as [|c s [IH1 IH2]]; [by split; [|left]|].
  simpl. destruct (Ascii.eqb_spec c sep) as [->|Hne].
  - split; [done|]. right. by exists s.
  - pose proof (split_nonempty sep s) as Hs.
    destruct (split sep s) as [|w ws]; [done|].
    unfold first in *. simpl in *. split.
    + rewrite IH1. by destruct (Ascii.eqb_spec c sep).
    + destruct IH2 as [->|[rest ->]]; [by left|].
      right. by exists rest.
Qed.

End PyFacts.

(** ** Addresses: printing and parsing are inverse on 32 bits *)

Module MininetUtilFacts.
Import Py PyFacts MininetUtil.

Lemma byte_bit ip k n :
  0 ≤ k →
  Z.testbit (Z.land (Z.shiftr ip k) 255) (n - k) =
  (k <=? n) && (n <? k + 8) && Z.testbit ip n.
Proof.
  intros Hk. change 255 with (Z.ones 8).
  destruct (Z.leb_spec k n) as [Hle|Hlt]; simpl.
  - rewrite Z.land_spec, Z.shiftr_spec by lia.
    replace (n - k + k) with n by lia.
    destruct (Z.ltb_spec n (k + 8)); simpl.
    + rewrite Z.ones_spec_low by lia. apply andb_true_r.
    + rewrite Z.ones_spec_high by lia. apply andb_false_r.
  - apply Z.testbit_neg_r. lia.
Qed.

Lemma ipNum_bytes ip :
  ipNum (Z.land (Z.shiftr ip 24) 255) (Z.land (Z.shiftr ip 16) 255)
        (Z.land (Z.shiftr ip 8) 255) (Z.land ip 255) = ip mod 2 ^ 32.
Proof.
  unfold ipNum. apply Z.bits_inj'. intros n Hn.
  rewrite !Z.lor_spec, !Z.shiftl_spec by lia.
  rewrite !byte_bit by lia.
  rewrite <- (Z.shiftr_0_r ip) at 4. rewrite <- (Z.sub_0_r n) at 10.
  rewrite byte_bit by lia.
  rewrite <- Z.land_ones, Z.land_spec, Z.testbit_ones_nonneg by lia.
  destruct (Z.testbit ip n); rewrite ?andb_true_r, ?andb_false_r; [|done].
  destruct (Z.leb_spec 24 n), (Z.leb_spec 16 n), (Z.leb_spec 8 n), (Z.leb_spec 0 n),
    (Z.ltb_spec n 32), (Z.ltb_spec n (24 + 8)), (Z.ltb_spec n (16 + 8)),
    (Z.ltb_spec n (8 + 8)), (Z.ltb_spec n (0 + 8)); simpl; try done; lia.
Qed.

Lemma octets_ok : forallb octet_ok (seq 0 256) = true.
Proof. vm_compute. reflexivity. Qed.

Lemma octet_spec z :
  0 ≤ z < 256 →
  no_sep "." (pretty z) = true ∧ Py.int (pretty z) = Some z.
Proof.
  intros Hz.
  pose proof octets_ok as H. rewrite forallb_forall in H.
  assert (Hin : In (Z.to_nat z) (seq 0 256)) by (apply in_seq; lia).
  apply H in Hin. unfold octet_ok in Hin.
  rewrite Z2Nat.id in Hin by lia.
  apply andb_true_iff in Hin as [H1 H2].
  by apply bool_decide_eq_true in H2.
Qed.

Lemma byte_range ip k : 0 ≤ Z.land (Z.shiftr ip k) 255 < 256.
Proof.
  change 255 with (Z.ones 8). rewrite Z.land_ones by lia.
  apply Z.mod_pos_bound. lia.
Qed.

Lemma ipParse_ipStr ip : ipParse (ipStr ip) = Some (ip mod 2 ^ 32).
Proof.
  unfold ipParse, ipStr.
  pose proof (byte_range ip 24) as H3. pose proof (byte_range ip 16) as H2.
  pose proof (byte_range ip 8) as H1. pose proof (byte_range ip 0) as H0.
  rewrite Z.shiftr_0_r in H0.
  apply octet_spec in H3 as [S3 I3]. apply octet_spec in H2 as [S2 I2].
  apply octet_spec in H1 as [S1 I1]. apply octet_spec in H0 as [S0 I0].
  rewrite !app_String, !app_empty, !split_app, split_no_sep by done.
  cbn [mapM mbind option_bind mret option_ret].
  rewrite I3, I2, I1, I0.
  cbn [mapM mbind option_bind mret option_ret pad length Nat.ltb Nat.leb].
  by rewrite ipNum_bytes.
Qed.

Lemma ipStr_mod a b : a mod 2 ^ 32 = b mod 2 ^ 32 → ipStr a = ipStr b.
Proof.
  intros H. unfold ipStr.
  assert (Hb : ∀ k, 0 ≤ k → k + 8 ≤ 32 → Z.land (Z.shiftr a k) 255 = Z.land (Z.shiftr b k) 255).
  { intros k Hk Hk'. apply Z.bits_inj'. intros n Hn.
    replace n with (n + k - k) by lia. rewrite !byte_bit by lia.
    destruct (Z.leb_spec k (n + k)); [|lia].
    destruct (Z.ltb_spec (n + k) (k + 8)); simpl; [|done].
    rewrite <- (Z.mod_pow2_bits_low a 32), <- (Z.mod_pow2_bits_low b 32) by lia.
    by rewrite H. }
  rewrite (Hb 24), (Hb 16), (Hb 8) by lia.
  pose proof (Hb 0) as H0. rewrite !Z.shiftr_0_r in H0. by rewrite H0 by lia.
Qed.

End MininetUtilFacts.

(** ** [ethernetPairConnectivity] *)

Module Connectivity.
Import Py PyFacts MininetUtil MininetUtilFacts Minindn.

Lemma ipStr_step z j : ipStr (z mod 2 ^ 32 + j) = ipStr (z + j).
Proof. apply ipStr_mod. by rewrite Z.add_mod_idemp_l. Qed.

(** A visit that does not allocate changes nothing and calls nothing. *)
Lemma visit_skip net base interfaces i :
  allocates net interfaces (link net i) = false →
  visit net (base, interfaces) i = (Returned (base, interfaces), []).
Proof.
  unfold allocates, host_link, visit. intros H.
  destruct (isSwitch net (node net (intf1 (link net i)))
            || isSwitch net (node net (intf2 (link net i)))); [done|].
  simpl in H. by rewrite H.
Qed.

(** A visit that allocates records both interfaces, issues the two calls
    and moves the base by four. *)
Lemma visit_allocates net z interfaces i :
  allocates net interfaces (link net i) = true →
  visit net (ipStr z, interfaces) i =
  (Returned (ipStr (z + 4),
             interfaces ++ [intf1 (link net i); intf2 (link net i)]),
   [setIP (node net (intf1 (link net i))) (ipStr (z + 1) +:+ "/30") (intf1 (link net i));
    setIP (node net (intf2 (link net i))) (ipStr (z + 2) +:+ "/30") (intf2 (link net i))]).
Proof.
  unfold allocates, host_link, visit. intros H.
  destruct (isSwitch net (node net (intf1 (link net i)))
            || isSwitch net (node net (intf2 (link net i)))); [done|].
  simpl in H. rewrite H.
  rewrite ipParse_ipStr. unfold raise_if_none.
  rewrite mret_bind, emit_bind, mret_bind, emit_bind, mret_bind.
  simpl. by rewrite !ipStr_step, <- app_assoc.
Qed.

(** The loop over a walk, from any base and any recorded interfaces. *)
Lemma visit_loop net w : ∀ (n : nat) interfaces,
  for_each w (visit net) (ipStr (167772160 + 4 * Z.of_nat n), interfaces) =
  (Returned (ipStr (167772160
                    + 4 * Z.of_nat (n + length (allocation net interfaces w))),
             interfaces ++ ends (allocation net interfaces w)),
   pair_calls net n (allocation net interfaces w)).
Proof.
  induction w as [|i w IH]; intros n interfaces.
  - simpl. by rewrite Nat.add_0_r, app_nil_r.
  - rewrite for_each_cons. simpl allocation.
    destruct (allocates net interfaces (link net i)) eqn:Ha.
    + rewrite visit_allocates, bind_Returned by done.
      replace (167772160 + 4 * Z.of_nat n + 4)
        with (167772160 + 4 * Z.of_nat (S n)) by lia.
      rewrite IH. simpl.
      replace (n + S (length (allocation net
                 (interfaces ++ [intf1 (link net i); intf2 (link net i)]) w)))%nat
        with (S n + length (allocation net
                 (interfaces ++ [intf1 (link net i); intf2 (link net i)]) w))%nat by lia.
      unfold address. rewrite <- app_assoc.
      by replace (167772160 + 4 * Z.of_nat n + 1) with (167772160 + (4 * Z.of_nat n + 1)) by lia;
         replace (167772160 + 4 * Z.of_nat n + 2) with (167772160 + (4 * Z.of_nat n + 2)) by lia.
    + rewrite visit_skip, bind_pure by done. apply IH.
Qed.

(** The routine always returns, and its calls are those of the allocated
    links, pair by pair. *)
Lemma ethernetPairConnectivity_trace net :
  ethernetPairConnectivity net = (Returned tt, pair_calls net 0 (allocated net)).
Proof.
  unfold ethernetPairConnectivity, allocated.
  rewrite for_each_nested. fold (walk net).
  change "10.0.0.0" with (ipStr (167772160 + 4 * Z.of_nat 0)).
  rewrite visit_loop, bind_Returned. simpl. by rewrite app_nil_r.
Qed.

(** The calls of the [k]-th link of the list. *)
Lemma pair_calls_lookup net ls : ∀ (n k : nat) l,
  ls !! k = Some l →
  pair_calls net n ls !! (2 * k)%nat
  = Some (setIP (node net (intf1 l)) (address (4 * Z.of_nat (n + k) + 1)) (intf1 l))
  ∧ pair_calls net n ls !! (2 * k + 1)%nat
    = Some (setIP (node net (intf2 l)) (address (4 * Z.of_nat (n + k) + 2)) (intf2 l)).
Proof.
  induction ls as [|l0 ls IH]; intros n k l Hl; [done|].
  destruct k as [|k].
  - injection Hl as ->. rewrite Nat.add_0_r. by split.
  - replace (2 * S k)%nat with (S (S (2 * k))) by lia.
    replace (S (S (2 * k)) + 1)%nat with (S (S (2 * k + 1))) by lia.
    replace (n + S k)%nat with (S n + k)%nat by lia.
    apply (IH (S n) k l Hl).
Qed.

End Connectivity.

Module Allocation.
Import Py PyFacts MininetUtil MininetUtilFacts Minindn Connectivity Samples.

Lemma assigned_pair_calls net n ls : assigned (pair_calls net n ls) = ends ls.
Proof.
  revert n. induction ls as [|l ls IH]; intros n; [done|].
  simpl. unfold assigned in IH. by rewrite IH.
Qed.

Lemma filter_pair_calls net n ls :
  List.filter is_setIP (pair_calls net n ls) = pair_calls net n ls.
Proof.
  revert n. induction ls as [|l ls IH]; intros n; [done|].
  simpl. by rewrite IH.
Qed.

Lemma ends_snoc A l : ends (A ++ [l]) = ends A ++ [intf1 l; intf2 l].
Proof. unfold ends. by rewrite bind_app. Qed.

Lemma elem_of_ends i A :
  i ∈ ends A ↔ ∃ l, l ∈ A ∧ (i = intf1 l ∨ i = intf2 l).
Proof.
  unfold ends. rewrite list_elem_of_bind. split.
  - intros (l & Hi & Hl). exists l. split; [done|].
    apply elem_of_cons in Hi as [->| Hi]; [by left|].
    apply elem_of_cons in Hi as [->| Hi]; [by right|].
    by apply elem_of_nil in Hi.
  - intros (l & Hl & [->| ->]); exists l; (split; [|done]).
    + apply elem_of_cons. by left.
    + apply elem_of_cons. right. apply elem_of_cons. by left.
Qed.

(** A link is allocated only while none of its interfaces is recorded, so
    no link is allocated twice. *)
Lemma allocation_NoDup net w : ∀ A,
  NoDup A → NoDup (A ++ allocation net (ends A) w).
Proof.
  induction w as [|i w IH]; intros A HA; simpl.
  - by rewrite app_nil_r.
  - destruct (allocates net (ends A) (link net i)) eqn:Ha; [|by apply IH].
    rewrite <- ends_snoc, cons_middle, app_assoc. apply IH.
    apply NoDup_app. split; [done|]. split; [|apply NoDup_singleton].
    intros l Hl Hl'. apply list_elem_of_singleton in Hl' as ->.
    unfold allocates in Ha. apply andb_true_iff in Ha as [Ha _].
    apply andb_true_iff in Ha as [_ Ha]. apply bool_decide_eq_true in Ha.
    apply Ha. apply elem_of_ends. exists (link net i). by split; [|left].
Qed.

Lemma allocation_ends_NoDup net w : ∀ A,
  (∀ i, i ∈ w → intf1 (link net i) ≠ intf2 (link net i)) →
  NoDup (ends A) → NoDup (ends (A ++ allocation net (ends A) w)).
Proof.
  induction w as [|i w IH]; intros A Hw HA; simpl.
  - by rewrite app_nil_r.
  - assert (Hw' : ∀ j, j ∈ w → intf1 (link net j) ≠ intf2 (link net j)).
    { intros j Hj. apply Hw. by apply elem_of_cons; right. }
    destruct (allocates net (ends A) (link net i)) eqn:Ha; [|by apply IH].
    rewrite <- ends_snoc, cons_middle, app_assoc. apply IH; [done|].
    rewrite ends_snoc.
    unfold allocates in Ha. apply andb_true_iff in Ha as [Ha H2].
    apply andb_true_iff in Ha as [_ H1].
    apply bool_decide_eq_true in H1, H2.
    apply NoDup_app. split; [done|]. split.
    + intros j Hj Hj'. apply elem_of_cons in Hj' as [->|Hj']; [done|].
      by apply list_elem_of_singleton in Hj' as ->.
    + apply NoDup_cons. split; [|apply NoDup_singleton].
      rewrite list_elem_of_singleton. apply Hw. by apply elem_of_cons; left.
Qed.

Lemma shares_ends l A i :
  (i = intf1 l ∨ i = intf2 l) → i ∈ ends A → ∃ a, a ∈ A ∧ shares l a = true.
Proof.
  intros Hi Hin. apply elem_of_ends in Hin as (a & Ha & Hia).
  exists a. split; [done|]. unfold shares.
  destruct Hi as [->| ->], Hia as [Heq|Heq]; rewrite Heq;
    rewrite !orb_true_iff, !bool_decide_eq_true; tauto.
Qed.

(** Every host-to-host link met on the walk is allocated. *)
Lemma allocation_complete net w : ∀ A,
  (∀ i l, i ∈ w → l ∈ A → shares (link net i) l = true → link net i = l) →
  (∀ i j, i ∈ w → j ∈ w → shares (link net i) (link net j) = true →
          link net i = link net j) →
  ∀ i, i ∈ w → host_link net (link net i) = true →
       link net i ∈ A ++ allocation net (ends A) w.
Proof.
  induction w as [|i0 w IH]; intros A HA Hw i Hi Hhost.
  - by apply elem_of_nil in Hi.
  - simpl. destruct (allocates net (ends A) (link net i0)) eqn:Ha.
    + rewrite <- ends_snoc, cons_middle, app_assoc.
      apply elem_of_cons in Hi as [->|Hi].
      * apply elem_of_app. left. apply elem_of_app. right.
        by apply list_elem_of_singleton.
      * apply IH; [| |done..].
        -- intros j l Hj Hl Hs. apply elem_of_app in Hl as [Hl|Hl].
           ++ apply (HA j l); [by apply elem_of_cons; right|done..].
           ++ apply list_elem_of_singleton in Hl as ->.
              apply Hw; [by apply elem_of_cons; right|by apply elem_of_cons; left|done].
        -- intros j k Hj Hk. apply Hw; by apply elem_of_cons; right.
    + apply elem_of_cons in Hi as [->|Hi].
      * apply elem_of_app. left.
        unfold allocates in Ha. rewrite Hhost in Ha. simpl in Ha.
        apply andb_false_iff in Ha.
        assert (∃ a, a ∈ A ∧ shares (link net i0) a = true) as (a & Ha' & Hs).
        { destruct Ha as [Ha|Ha]; apply bool_decide_eq_false in Ha;
            apply dec_stable in Ha;
            (eapply shares_ends; [|exact Ha]); [by left|by right]. }
        rewrite (HA i0 a); [done|by apply elem_of_cons; left|done..].
      * apply IH; [| |done..].
        -- intros j l Hj. apply HA. by apply elem_of_cons; right.
        -- intros j k Hj Hk. apply Hw; by apply elem_of_cons; right.
Qed.

Lemma well_formed_spec net :
  well_formed net = true →
  (∀ i, i ∈ walk net → intf1 (link net i) ≠ intf2 (link net i))
  ∧ (∀ i j, i ∈ walk net → j ∈ walk net →
            shares (link net i) (link net j) = true → link net i = link net j).
Proof.
  unfold well_formed. rewrite forallb_forall. intros H. split.
  - intros i Hi. apply list_elem_of_In, H in Hi.
    apply andb_true_iff in Hi as [Hi _]. by apply bool_decide_eq_true in Hi.
  - intros i j Hi Hj Hs. apply list_elem_of_In, H in Hi.
    apply andb_true_iff in Hi as [_ Hi]. rewrite forallb_forall in Hi.
    apply list_elem_of_In, Hi in Hj. rewrite Hs in Hj.
    by apply bool_decide_eq_true in Hj.
Qed.

End Allocation.

Module ConnectivityTheorems.
Import Py PyFacts MininetUtil MininetUtilFacts Minindn Connectivity
  Allocation Samples.

(** C1 (as amended).  On every network the routine returns, and its calls
    are exactly the calls of the allocated links in allocation order: the
    [n]-th allocated link (from 0) has its first interface set to the
    dotted form of 10.0.0.0 + (4n+1) and its second to that of
    10.0.0.0 + (4n+2), both with the suffix /30, so that the base moves by
    four addresses per pair.  For the first 64 pairs these are
    10.0.0.(4n+1)/30 and 10.0.0.(4n+2)/30. *)
Theorem ethernetPairConnectivity_addresses (net : Mininet) :
  ethernetPairConnectivity net = (Returned tt, pair_calls net 0 (allocated net))
  ∧ (∀ (n : nat) l,
       allocated net !! n = Some l →
       (ethernetPairConnectivity net).2 !! (2 * n)%nat
       = Some (setIP (node net (intf1 l)) (address (4 * Z.of_nat n + 1)) (intf1 l))
       ∧ (ethernetPairConnectivity net).2 !! (2 * n + 1)%nat
         = Some (setIP (node net (intf2 l)) (address (4 * Z.of_nat n + 2)) (intf2 l)))
  ∧ Forall (λ n, address (4 * Z.of_nat n + 1) = last_octet_address n 1
                 ∧ address (4 * Z.of_nat n + 2) = last_octet_address n 2)
           (seq 0 64).
Proof.
  split; [apply ethernetPairConnectivity_trace|]. split.
  - intros n l Hl. rewrite ethernetPairConnectivity_trace. cbn [snd].
    apply (pair_calls_lookup net (allocated net) 0 n l Hl).
  - apply (bool_decide_unpack _). vm_compute. exact I.
Qed.

Lemma ethernetPairConnectivity_addresses_witness :
  (ethernetPairConnectivity (chain 3)).2 !! 2%nat
  = Some (setIP 1%nat "10.0.0.5/30" 2%nat)
  ∧ (ethernetPairConnectivity (chain 3)).2 !! 3%nat
    = Some (setIP 2%nat "10.0.0.6/30" 3%nat).
Proof.
  apply (proj1 (proj2 (ethernetPairConnectivity_addresses (chain 3)))
           1%nat (mkLink 2%nat 3%nat)).
  reflexivity.
Defined.

(** C1, counterexample.  On a line of 66 hosts, which has no switch, the
    pair number 64 is given 10.0.1.1/30 and 10.0.1.2/30, which are not the
    addresses 10.0.0.257/30 and 10.0.0.258/30 that the last-octet form gives. *)
Lemma pair_64_leaves_the_last_octet :
  switches (chain 66) = []
  ∧ (ethernetPairConnectivity (chain 66)).2 !! 128%nat
    = Some (setIP 64%nat "10.0.1.1/30" 128%nat)
  ∧ (ethernetPairConnectivity (chain 66)).2 !! 129%nat
    = Some (setIP 65%nat "10.0.1.2/30" 129%nat)
  ∧ last_octet_address 64 1 = "10.0.0.257/30"
  ∧ last_octet_address 64 2 = "10.0.0.258/30"
  ∧ "10.0.1.1/30" ≠ last_octet_address 64 1
  ∧ "10.0.1.2/30" ≠ last_octet_address 64 2.
Proof. vm_compute. repeat split; discriminate. Qed.

(** C8.  On a network whose links have two different interfaces each and
    share none, every host-to-host link met on the walk is allocated, no
    link is allocated twice, and the interfaces that receive an address
    are the interfaces of the allocated links, each exactly once. *)
Theorem one_subnet_per_link (net : Mininet) :
  well_formed net = true →
  NoDup (allocated net)
  ∧ (∀ i, i ∈ walk net → host_link net (link net i) = true →
          link net i ∈ allocated net)
  ∧ assigned (ethernetPairConnectivity net).2 = ends (allocated net)
  ∧ NoDup (assigned (ethernetPairConnectivity net).2).
Proof.
  intros Hwf. apply well_formed_spec in Hwf as [H1 H2].
  rewrite ethernetPairConnectivity_trace. simpl. rewrite assigned_pair_calls.
  unfold allocated. repeat split.
  - apply (allocation_NoDup net (walk net) []). constructor.
  - intros i Hi Hh.
    apply (allocation_complete net (walk net) []); [|done..].
    intros j l _ Hl. by apply elem_of_nil in Hl.
  - apply (allocation_ends_NoDup net (walk net) []); [done|constructor].
Qed.

Lemma one_subnet_per_link_witness :
  well_formed (chain 4) = true
  ∧ NoDup (assigned (ethernetPairConnectivity (chain 4)).2).
Proof.
  split; [reflexivity|].
  apply (one_subnet_per_link (chain 4)). reflexivity.
Defined.

End ConnectivityTheorems.

(** ** [processTopo] *)

Module TopologyFacts.
Import Py PyFacts Minindn.

Section Nodes.
Context {F : Type}.

Lemma subscript_1 (l : list string) :
  subscript (Ev := Event) l 1 =
  match l with
  | _ :: v :: _ => (Returned v, [])
  | _ => (Raised IndexError, [])
  end.
Proof. by destruct l as [|k [|v rest]]. Qed.

Lemma tokens_Some v : tokens (Some v) = (Returned (split " " v), []).
Proof. reflexivity. Qed.

Lemma tokens_None : tokens None = (Raised AttributeError, []).
Proof. reflexivity. Qed.

(** *** Parameters of a node *)

Lemma nodeParam_skip (params : gmap string string) :
  nodeParam params "_" = (Returned params, []).
Proof. reflexivity. Qed.

Lemma nodeParam_silent (params : gmap string string) param :
  (nodeParam params param).2 = [].
Proof.
  unfold nodeParam. case_bool_decide; [done|].
  rewrite subscript_1. by destruct (split "=" param) as [|k [|v rest]].
Qed.

Lemma nodeParam_ok (params : gmap string string) param :
  node_token_ok param = true →
  ∃ params', nodeParam params param = (Returned params', []).
Proof.
  unfold node_token_ok, nodeParam. intros H.
  case_bool_decide; [by eexists|]. simpl in H.
  apply bool_decide_eq_true in H. rewrite subscript_1.
  destruct (split "=" param) as [|k [|v rest]]; simpl in H; [lia..|].
  rewrite bind_pure. by eexists.
Qed.

Lemma nodeParams_ok ps : ∀ params : gmap string string,
  forallb node_token_ok ps = true →
  ∃ params', for_each ps nodeParam params = (Returned params', []).
Proof.
  induction ps as [|param ps IH]; intros params H; [by eexists|].
  simpl in H. apply andb_true_iff in H as [H1 H2].
  destruct (nodeParam_ok params param H1) as [p1 Hp1].
  destruct (IH p1 H2) as [p2 Hp2].
  exists p2. by rewrite for_each_cons, Hp1, bind_pure.
Qed.

(** Tokens [_] contribute nothing. *)
Lemma nodeParams_filter ps : ∀ params : gmap string string,
  for_each ps nodeParam params
  = for_each (filter (λ param, param ≠ "_") ps) nodeParam params.
Proof.
  induction ps as [|param ps IH]; intros params; [done|].
  rewrite for_each_cons. destruct (decide (param = "_")) as [->|Hne].
  - rewrite nodeParam_skip, bind_pure, IH. by rewrite filter_cons_False by naive_solver.
  - rewrite filter_cons_True by done. rewrite for_each_cons.
    destruct (nodeParam params param) as [[p|e|n] evs]; [|done..].
    by rewrite !bind_Returned, IH.
Qed.

(** *** The loop over the nodes section *)

Lemma nodeItem_duplicate coordinates (topo : Topo F) item :
  item.2 ∈ coordinates → item.2 ≠ Some "_" →
  nodeItem (coordinates, topo) item
  = (Exited 1, [error (duplicate_message item.2)]).
Proof.
  intros H1 H2. unfold nodeItem.
  by rewrite (bool_decide_eq_true_2 _ H1), (bool_decide_eq_true_2 _ H2).
Qed.

Lemma nodeItem_fresh coordinates (topo : Topo F) item :
  ¬ (item.2 ∈ coordinates ∧ item.2 ≠ Some "_") →
  nodeItem (coordinates, topo) item
  = (ps ← tokens item.2;
     params ← for_each ps nodeParam ∅;
     mret (coordinates ++ [item.2], topo ++ [addHost (first (split ":" item.1)) params])).
Proof.
  intros H. unfold nodeItem.
  destruct (bool_decide (item.2 ∈ coordinates)) eqn:H1;
    destruct (bool_decide (item.2 ≠ Some "_")) eqn:H2; try done.
  apply bool_decide_eq_true in H1, H2. tauto.
Qed.

(** An entry without coordinates is never a duplicate, and its host has
    no parameters. *)
Lemma nodeItem_underscore coordinates (topo : Topo F) key :
  nodeItem (coordinates, topo) (key, Some "_")
  = (Returned (coordinates ++ [Some "_"],
               topo ++ [addHost (first (split ":" key)) ∅]), []).
Proof.
  rewrite nodeItem_fresh by (simpl; tauto). reflexivity.
Qed.

Lemma nodeItem_inv coordinates (topo : Topo F) item coordinates' topo' evs :
  nodeItem (coordinates, topo) item = (Returned (coordinates', topo'), evs) →
  ∃ d, host_decl item d ∧ coordinates' = coordinates ++ [item.2]
       ∧ topo' = topo ++ [d] ∧ evs = [].
Proof.
  destruct (decide (item.2 ∈ coordinates ∧ item.2 ≠ Some "_")) as [[H1 H2]|H].
  { by rewrite nodeItem_duplicate. }
  rewrite nodeItem_fresh by done.
  destruct item as [key [v|]]; cbn [fst snd];
    [|by rewrite tokens_None, bind_Raised].
  rewrite tokens_Some, bind_pure.
  pose proof (for_each_silent (split " " v) nodeParam ∅ nodeParam_silent) as Hs.
  destruct (for_each (split " " v) nodeParam ∅) as [[params|e|n] evs0] eqn:Hfe;
    simpl in Hs; subst evs0; [|stopped..].
  rewrite bind_pure, mret_eq. intros [= <- <- <-].
  exists (addHost (first (split ":" key)) params).
  split; [by exists v, params|done].
Qed.

Lemma nodes_inv items : ∀ coordinates (topo : Topo F) coordinates' topo' evs,
  for_each items nodeItem (coordinates, topo) = (Returned (coordinates', topo'), evs) →
  ∃ ds, Forall2 host_decl items ds ∧ coordinates' = coordinates ++ items.*2
        ∧ topo' = topo ++ ds ∧ evs = [].
Proof.
  induction items as [|item items IH]; intros c t c' t' evs.
  - intros [= <- <- <-]. exists []. by rewrite !app_nil_r.
  - rewrite for_each_cons. intros H.
    apply bind_Returned_inv in H as ([c1 t1] & e1 & e2 & H1 & H2 & ->).
    apply nodeItem_inv in H1 as (d & Hd & -> & -> & ->).
    apply IH in H2 as (ds & Hds & -> & -> & ->).
    exists (d :: ds). split; [by constructor|].
    by rewrite <- !app_assoc.
Qed.

(** With well-formed values the loop over the nodes either goes through
    or stops at a duplicate coordinate. *)
Lemma nodes_well_formed items : ∀ coordinates (topo : Topo F),
  forallb node_value_ok items.*2 = true →
  (∃ topo', for_each items nodeItem (coordinates, topo)
            = (Returned (coordinates ++ items.*2, topo'), []))
  ∨ (∃ v, v ≠ "_" ∧ for_each items nodeItem (coordinates, topo)
                    = (Exited 1, [error (duplicate_message (Some v))])).
Proof.
  induction items as [|[key value] items IH]; intros c t Hwf.
  - left. exists t. by rewrite app_nil_r.
  - simpl in Hwf. apply andb_true_iff in Hwf as [Hv Hwf].
    destruct value as [v|]; [|done]. simpl in Hv.
    rewrite for_each_cons.
    destruct (decide ((key, Some v).2 ∈ c ∧ (key, Some v).2 ≠ Some "_")) as [[H1 H2]|H].
    + right. exists v. split; [simpl in H2; congruence|].
      by rewrite nodeItem_duplicate, bind_Exited.
    + rewrite nodeItem_fresh by done. cbn [fst snd].
      rewrite tokens_Some, bind_pure.
      destruct (nodeParams_ok (split " " v) ∅ Hv) as [params ->].
      rewrite bind_pure, mret_bind.
      destruct (IH (c ++ [Some v]) (t ++ [addHost (first (split ":" key)) params]) Hwf)
        as [[t' Ht']|[v' [Hv' Hstop]]].
      * left. exists t'. etransitivity; [exact Ht'|].
        by rewrite <- app_assoc.
      * right. exists v'. split; [done|exact Hstop].
Qed.

(** Entries without coordinates all become hosts without parameters. *)
Lemma nodes_underscore (items : Items) : ∀ coordinates (topo : Topo F),
  Forall (λ item, item.2 = Some "_") items →
  for_each items nodeItem (coordinates, topo)
  = (Returned (coordinates ++ items.*2,
               topo ++ ((λ item, addHost (first (split ":" item.1)) ∅) <$> items)),
     []).
Proof.
  induction items as [|[key value] items IH]; intros c t H.
  - by rewrite !app_nil_r.
  - apply Forall_cons in H as [Hv H]. simpl in Hv. subst value.
    rewrite for_each_cons, nodeItem_underscore, bind_pure.
    etransitivity; [apply IH, H|].
    by rewrite !fmap_cons, <- !app_assoc.
Qed.

(** *** The loop over the switches section *)

Lemma switches_loop items : ∀ topo : Topo F,
  for_each items switchItem topo
  = (Returned (topo ++ ((λ item, addSwitch (first (split ":" item.1))) <$> items)), []).
Proof.
  induction items as [|item items IH]; intros topo.
  - by rewrite app_nil_r.
  - rewrite for_each_cons.
    change (switchItem topo item)
      with (Returned (topo ++ [addSwitch (F := F) (first (split ":" item.1))]),
            @nil Event).
    rewrite bind_pure, IH. by rewrite <- app_assoc.
Qed.

End Nodes.

Section Links.
Context {F : Type} (float_of_str : string → option F) (float_of_int : Z → F).

(** *** Parameters of a link *)

(** The three statements of the loop body, as one case distinction. *)
Lemma linkParam_eq (params : gmap string (Value F)) param :
  linkParam float_of_str float_of_int params param =
  match split "=" param with
  | key :: value :: _ =>
      if bool_decide (key ∈ ["bw"; "jitter"; "max_queue_size"]) then
        match int value with
        | Some n => (Returned (<[key := VInt n]> params), [])
        | None => (Raised ValueError, [])
        end
      else if bool_decide (key = "loss") then
        match float_of_str value with
        | Some f => (Returned (<[key := VFloat f]> params), [])
        | None => (Raised ValueError, [])
        end
      else (Returned (<[key := VStr value]> params), [])
  | _ => (Raised IndexError, [])
  end.
Proof.
  unfold linkParam. cbv zeta. rewrite subscript_1.
  destruct (split "=" param) as [|key [|value rest]]; [done..|].
  rewrite bind_pure. change (first (key :: value :: rest)) with key.
  destruct (decide (key ∈ ["bw"; "jitter"; "max_queue_size"])) as [Hint|Hint];
    destruct (decide (key = "loss")) as [Hloss|Hloss];
    rewrite ?(bool_decide_eq_true_2 _ Hint), ?(bool_decide_eq_false_2 _ Hint),
      ?(bool_decide_eq_true_2 _ Hloss), ?(bool_decide_eq_false_2 _ Hloss).
  - subst key. exfalso. revert Hint.
    rewrite !elem_of_cons, elem_of_nil. by intros [?|[?|[?|[]]]].
  - unfold py_int. destruct (int value) as [n|];
      cbn [fmap option_fmap option_map raise_if_none]; [|done].
    by rewrite !mret_bind.
  - rewrite mret_bind. unfold py_float.
    destruct (float_of_str value) as [f|];
      cbn [fmap option_fmap option_map raise_if_none]; [|done].
    by rewrite !mret_bind.
  - by rewrite !mret_bind.
Qed.

Lemma linkParam_inv (params params' : gmap string (Value F)) param evs :
  linkParam float_of_str float_of_int params param = (Returned params', evs) →
  ∃ key value rest x,
    split "=" param = key :: value :: rest
    ∧ coerced float_of_str key value x
    ∧ params' = <[key := x]> params ∧ evs = [].
Proof.
  rewrite linkParam_eq.
  destruct (split "=" param) as [|key [|value rest]]; [done..|].
  unfold coerced. case_bool_decide as Hint; [|case_bool_decide as Hloss].
  - destruct (int value) as [n|] eqn:Hn; [|done]. intros [= <- <-].
    exists key, value, rest, (VInt n). repeat split; try done.
    + intros _. by exists n.
    + intros ->. exfalso. revert Hint.
      rewrite !elem_of_cons, elem_of_nil. by intros [?|[?|[?|[]]]].
  - destruct (float_of_str value) as [f|] eqn:Hf; [|done]. intros [= <- <-].
    exists key, value, rest, (VFloat f). repeat split; try done.
    intros _. by exists f.
  - intros [= <- <-].
    exists key, value, rest, (VStr value). repeat split; done.
Qed.

Lemma linkParam_silent (params : gmap string (Value F)) param :
  (linkParam float_of_str float_of_int params param).2 = [].
Proof.
  rewrite linkParam_eq.
  destruct (split "=" param) as [|key [|value rest]]; [done..|].
  repeat case_bool_decide; try done.
  - by destruct (int value).
  - by destruct (float_of_str value).
Qed.

(** The parameters of a link entry: every key of the result comes from a
    token of the entry (or was there before), typed by its key. *)
Lemma linkParams_inv ps : ∀ (params params' : gmap string (Value F)) evs,
  for_each ps (linkParam float_of_str float_of_int) params = (Returned params', evs) →
  evs = [] ∧
  ∀ key x, params' !! key = Some x →
    params !! key = Some x
    ∨ ∃ param value rest,
        param ∈ ps ∧ split "=" param = key :: value :: rest
        ∧ coerced float_of_str key value x.
Proof.
  induction ps as [|param ps IH]; intros params params' evs.
  - intros [= <- <-]. split; [done|]. by left.
  - rewrite for_each_cons. intros H.
    apply bind_Returned_inv in H as (p1 & e1 & e2 & H1 & H2 & ->).
    apply linkParam_inv in H1 as (k & v & rest & y & Hsplit & Hy & -> & ->).
    apply IH in H2 as [-> H2]. split; [done|].
    intros key x Hx. apply H2 in Hx as [Hx|(param' & v' & rest' & Hin & Hs & Hc)].
    + destruct (decide (k = key)) as [->|Hne].
      * rewrite lookup_insert_eq in Hx. injection Hx as ->.
        right. exists param, v, rest. split; [by apply elem_of_cons; left|done].
      * rewrite lookup_insert_ne in Hx by done. by left.
    + right. exists param', v', rest'. split; [by apply elem_of_cons; right|done].
Qed.

(** Every token of the entry leaves its key in the result. *)
Lemma linkParams_keys ps : ∀ (params params' : gmap string (Value F)) evs,
  for_each ps (linkParam float_of_str float_of_int) params = (Returned params', evs) →
  (∀ key, is_Some (params !! key) → is_Some (params' !! key))
  ∧ ∀ param, param ∈ ps → is_Some (params' !! first (split "=" param)).
Proof.
  induction ps as [|param ps IH]; intros params params' evs.
  - intros [= <- <-]. split; [done|]. intros param H. by apply elem_of_nil in H.
  - rewrite for_each_cons. intros H.
    apply bind_Returned_inv in H as (p1 & e1 & e2 & H1 & H2 & ->).
    apply linkParam_inv in H1 as (k & v & rest & y & Hsplit & _ & -> & ->).
    apply IH in H2 as [Hmono Hkeys]. split.
    + intros key Hkey. apply Hmono.
      destruct (decide (k = key)) as [->|Hne].
      * rewrite lookup_insert_eq. by eexists.
      * by rewrite lookup_insert_ne.
    + intros param' Hin. apply elem_of_cons in Hin as [->|Hin]; [|by apply Hkeys].
      apply Hmono. rewrite Hsplit. change (first (k :: v :: rest)) with k.
      rewrite lookup_insert_eq. by eexists.
Qed.

(** *** The loop over the links section *)

Lemma linkItem_inv (topo topo' : Topo F) item evs :
  linkItem float_of_str float_of_int topo item = (Returned topo', evs) →
  ∃ d, link_decl float_of_str float_of_int item d ∧ topo' = topo ++ [d] ∧ evs = [].
Proof.
  unfold linkItem. cbv zeta. intros H.
  apply bind_Returned_inv in H as (ps & e1 & e2 & H1 & H & ->).
  destruct item as [key [v|]]; cbn [fst snd] in *;
    [|by rewrite tokens_None in H1].
  rewrite tokens_Some in H1. injection H1 as <- <-.
  apply bind_Returned_inv in H as (params & e2' & e3 & H2 & H & ->).
  pose proof H2 as H2'. apply linkParams_inv in H2' as [-> _].
  apply bind_Returned_inv in H as (node2 & e4 & e5 & H3 & H & ->).
  rewrite subscript_1 in H3.
  destruct (split ":" key) as [|node1 [|node2' rest]] eqn:Hk; [done..|].
  injection H3 as <- <-. rewrite mret_eq in H. injection H as <- <-.
  exists (addLink node1 node2' params). split; [|done].
  by exists v, params, node1, node2', rest.
Qed.

Lemma links_inv items : ∀ (topo topo' : Topo F) evs,
  for_each items (linkItem float_of_str float_of_int) topo = (Returned topo', evs) →
  ∃ ds, Forall2 (link_decl float_of_str float_of_int) items ds
        ∧ topo' = topo ++ ds ∧ evs = [].
Proof.
  induction items as [|item items IH]; intros t t' evs.
  - intros [= <- <-]. exists []. by rewrite app_nil_r.
  - rewrite for_each_cons. intros H.
    apply bind_Returned_inv in H as (t1 & e1 & e2 & H1 & H2 & ->).
    apply linkItem_inv in H1 as (d & Hd & -> & ->).
    apply IH in H2 as (ds & Hds & -> & ->).
    exists (d :: ds). split; [by constructor|].
    by rewrite <- !app_assoc.
Qed.

(** *** The three sections in sequence *)

Lemma config_items_Some (config : gmap string Items) section items :
  config !! section = Some items →
  config_items config section = (Returned items, []).
Proof. intros H. unfold config_items. by rewrite H. Qed.

Lemma config_items_None (config : gmap string Items) section :
  config !! section = None →
  config_items config section = (Raised (NoSectionError section), []).
Proof. intros H. unfold config_items. by rewrite H. Qed.

Lemma processTopo_no_nodes (config : gmap string Items) :
  config !! "nodes" = None →
  processTopo float_of_str float_of_int config
  = (Raised (NoSectionError "nodes"), []).
Proof.
  intros H. unfold processTopo, config_items. rewrite H. reflexivity.
Qed.

(** The [try] around the switches section: a missing section leaves the
    topology as it is. *)
Lemma switches_part (config : gmap string Items) (topo : Topo F) :
  except_NoSectionError
    (items ← config_items config "switches"; for_each items switchItem topo)
    (λ _, mret topo)
  = (Returned (topo ++ ((λ item, addSwitch (first (split ":" item.1)))
                        <$> default [] (config !! "switches"))), []).
Proof.
  unfold config_items. destruct (config !! "switches") as [items|].
  - cbn [raise_if_none default from_option id]. rewrite mret_bind, switches_loop.
    reflexivity.
  - cbn [raise_if_none default from_option id]. unfold raise. rewrite bind_Raised.
    unfold except_NoSectionError. cbn [fst snd].
    rewrite bind_unfold, bind_pure, mret_eq. by rewrite app_nil_r.
Qed.

Lemma processTopo_after_nodes (config : gmap string Items) nodes cs t1 e1 :
  config !! "nodes" = Some nodes →
  for_each nodes nodeItem ([], []) = (Returned (cs, t1), e1) →
  processTopo float_of_str float_of_int config
  = (items ← config_items config "links";
     for_each items (linkItem float_of_str float_of_int)
       (t1 ++ ((λ item, addSwitch (first (split ":" item.1)))
               <$> default [] (config !! "switches")))).
Proof.
  intros Hn Hloop. pose proof Hloop as Hinv.
  apply nodes_inv in Hinv as (ds & _ & _ & _ & ->).
  unfold processTopo. cbv zeta.
  rewrite (config_items_Some _ _ _ Hn), bind_pure.
  rewrite_loop Hloop. rewrite bind_pure.
  cbv beta iota. by rewrite switches_part, bind_pure.
Qed.

Lemma processTopo_nodes_raise (config : gmap string Items) nodes e evs :
  config !! "nodes" = Some nodes →
  for_each nodes nodeItem ([], @nil (Decl F)) = (Raised e, evs) →
  processTopo float_of_str float_of_int config = (Raised e, evs).
Proof.
  intros Hn Hloop.
  unfold processTopo. cbv zeta.
  rewrite (config_items_Some _ _ _ Hn), bind_pure.
  rewrite_loop Hloop. by rewrite bind_Raised.
Qed.

Lemma processTopo_nodes_exit (config : gmap string Items) nodes n evs :
  config !! "nodes" = Some nodes →
  for_each nodes nodeItem ([], @nil (Decl F)) = (Exited n, evs) →
  processTopo float_of_str float_of_int config = (Exited n, evs).
Proof.
  intros Hn Hloop.
  unfold processTopo. cbv zeta.
  rewrite (config_items_Some _ _ _ Hn), bind_pure.
  rewrite_loop Hloop. by rewrite bind_Exited.
Qed.

End Links.
End TopologyFacts.

(** ** More on [processTopo]: which entries it accepts and how it fails *)

Module ParserFacts.
Import Py PyFacts Minindn TopologyFacts.

(** *** Computations that are calm *)







(** *** Loops and sequences with equal parts *)

Lemma bind_ext {Ev A B} (m : M Ev A) (k1 k2 : A → M Ev B) :
  (∀ a, k1 a = k2 a) → m ≫= k1 = m ≫= k2.
Proof.
  intros H. destruct m as [[a|e|n] evs]; [|done..].
  by rewrite !bind_Returned, H.
Qed.

Lemma for_each_ext {Ev S B} (l : list B) (body1 body2 : S → B → M Ev S) s :
  (∀ s x, body1 s x = body2 s x) → for_each l body1 s = for_each l body2 s.
Proof.
  intros H. revert s. induction l as [|x l IH]; intros s; [done|].
  rewrite !for_each_cons, H. by apply bind_ext.
Qed.

(** *** Node entries *)

Lemma nodeParam_bad (params : gmap string string) param :
  node_token_ok param = false →
  nodeParam params param = (Raised IndexError, []).
Proof.
  unfold node_token_ok, nodeParam. intros H.
  apply orb_false_iff in H as [H1 H2]. rewrite H1.
  apply bool_decide_eq_false in H2. rewrite subscript_1.
  destruct (split "=" param) as [|k [|v rest]]; simpl in H2; [done..|lia].
Qed.

Lemma nodeParams_bad ps : ∀ params : gmap string string,
  forallb node_token_ok ps = false →
  for_each ps nodeParam params = (Raised IndexError, []).
Proof.
  induction ps as [|param ps IH]; intros params H; [done|].
  simpl in H. rewrite for_each_cons.
  destruct (node_token_ok param) eqn:Hp.
  - destruct (nodeParam_ok params param Hp) as [p1 ->].
    rewrite bind_pure. by apply IH.
  - by rewrite nodeParam_bad, bind_Raised.
Qed.

Lemma nodeParam_pair (params params' : gmap string string) param evs :
  nodeParam params param = (Returned params', evs) →
  params' = list_to_map (node_pairs [param]) ∪ params.
Proof.
  unfold node_pairs, key_value.
  destruct (decide (param = "_")) as [->|Hne].
  - rewrite nodeParam_skip. intros [= <- _].
    rewrite filter_cons_False, filter_nil by (by intros []).
    simpl. by rewrite (left_id_L ∅ (∪)).
  - unfold nodeParam. rewrite (bool_decide_eq_false_2 _ Hne), filter_cons_True, filter_nil by done.
    rewrite subscript_1.
    destruct (split "=" param) as [|k [|v rest]] eqn:Hs; [stopped..|].
    rewrite bind_pure, mret_eq. intros [= <- _].
    change (first (k :: v :: rest)) with k. simpl. rewrite Hs. simpl.
    rewrite insert_empty. by rewrite insert_union_singleton_l.
Qed.

Lemma node_pairs_one param : reverse (node_pairs [param]) = node_pairs [param].
Proof.
  unfold node_pairs. destruct (decide (param = "_")) as [->|Hne].
  - by rewrite filter_cons_False, filter_nil by (by intros []).
  - rewrite filter_cons_True, filter_nil by done. simpl.
    by destruct (key_value param).
Qed.

(** The dictionary of a node entry holds, for every key, the value of the
    last token with that key. *)
Lemma nodeParams_pairs ps : ∀ (params params' : gmap string string) evs,
  for_each ps nodeParam params = (Returned params', evs) →
  params' = list_to_map (reverse (node_pairs ps)) ∪ params.
Proof.
  induction ps as [|param ps IH]; intros params params' evs.
  - intros [= <- _]. simpl. by rewrite (left_id_L ∅ (∪)).
  - rewrite for_each_cons. intros H.
    apply bind_Returned_inv in H as (p1 & e1 & e2 & H1 & H2 & ->).
    apply nodeParam_pair in H1 as ->. apply IH in H2 as ->.
    change (param :: ps) with ([param] ++ ps).
    rewrite <- (node_pairs_one param).
    unfold node_pairs. rewrite filter_app, omap_app, reverse_app, list_to_map_app.
    by rewrite (assoc_L (∪)).
Qed.

(** *** The loop over the nodes: duplicates *)

Lemma forallb_first_false {A} (f : A → bool) (l : list A) :
  forallb f l = false →
  ∃ good bad rest, l = good ++ bad :: rest ∧ forallb f good = true ∧ f bad = false.
Proof.
  induction l as [|x l IH]; [done|]. simpl.
  destruct (f x) eqn:Hx.
  - intros H. destruct (IH H) as (good & bad & rest & -> & Hg & Hb).
    exists (x :: good), bad, rest. simpl. by rewrite Hx.
  - intros _. by exists [], x, l.
Qed.

Lemma elem_of_coordinates_of value values :
  value ∈ coordinates_of values ↔ value ∈ values ∧ value ≠ Some "_".
Proof. unfold coordinates_of. rewrite list_elem_of_filter. tauto. Qed.

Lemma coordinates_of_snoc_NoDup values value :
  NoDup (coordinates_of (values ++ [value]))
  ↔ NoDup (coordinates_of values) ∧ ¬ (value ∈ values ∧ value ≠ Some "_").
Proof.
  unfold coordinates_of. rewrite filter_app.
  destruct (decide (value ≠ Some "_")) as [Hv|Hv].
  - rewrite filter_cons_True, filter_nil, NoDup_app by done.
    fold (coordinates_of values). split.
    + intros (H1 & H2 & _). split; [done|]. intros [Hin _].
      apply (H2 value); [by apply elem_of_coordinates_of|by apply list_elem_of_singleton].
    + intros [H1 H2]. split; [done|]. split; [|apply NoDup_singleton].
      intros x Hx Hx'. apply list_elem_of_singleton in Hx' as ->.
      apply elem_of_coordinates_of in Hx. tauto.
  - rewrite filter_cons_False, filter_nil, app_nil_r by done. tauto.
Qed.

Section Nodes.
Context {F : Type}.

Lemma nodeItem_returns coordinates (topo : Topo F) item coordinates' topo' evs :
  nodeItem (coordinates, topo) item = (Returned (coordinates', topo'), evs) →
  ¬ (item.2 ∈ coordinates ∧ item.2 ≠ Some "_") ∧ node_value_ok item.2 = true.
Proof.
  intros H. split.
  - intros [H1 H2]. by rewrite nodeItem_duplicate in H.
  - apply nodeItem_inv in H as (d & (v & params & Hv & Hp & _) & _).
    rewrite Hv. simpl.
    destruct (forallb node_token_ok (split " " v)) eqn:Hok; [done|].
    by rewrite nodeParams_bad in Hp.
Qed.

(** When the loop over the nodes goes through, the values were well
    formed and it has met no coordinate twice. *)
Lemma nodes_returned items : ∀ coordinates (topo : Topo F) coordinates' topo' evs,
  for_each items nodeItem (coordinates, topo) = (Returned (coordinates', topo'), evs) →
  forallb node_value_ok items.*2 = true
  ∧ (NoDup (coordinates_of coordinates) →
     NoDup (coordinates_of (coordinates ++ items.*2))).
Proof.
  induction items as [|item items IH]; intros c t c' t' evs.
  - intros _. by rewrite app_nil_r.
  - rewrite for_each_cons. intros H.
    apply bind_Returned_inv in H as ([c1 t1] & e1 & e2 & H1 & H2 & ->).
    pose proof (nodeItem_returns _ _ _ _ _ _ H1) as [Hfresh Hok].
    apply nodeItem_inv in H1 as (d & _ & -> & -> & _).
    apply IH in H2 as [Hoks Hnd]. split.
    + rewrite fmap_cons. simpl. by rewrite Hok, Hoks.
    + intros Hc. rewrite fmap_cons, cons_middle, app_assoc. apply Hnd.
      by apply coordinates_of_snoc_NoDup.
Qed.


End Nodes.

(** *** Link entries *)

Section Links.
Context {F : Type} (float_of_str : string → option F) (float_of_int : Z → F).

Lemma linkParam_ok (params : gmap string (Value F)) param :
  link_token_ok float_of_str param = true →
  ∃ params', linkParam float_of_str float_of_int params param
             = (Returned params', []).
Proof.
  rewrite linkParam_eq. unfold link_token_ok.
  destruct (split "=" param) as [|key [|value rest]]; [done..|].
  case_bool_decide; [|case_bool_decide].
  - intros Hx. apply bool_decide_eq_true in Hx as [n ->]. by eexists.
  - intros Hx. apply bool_decide_eq_true in Hx as [f ->]. by eexists.
  - intros _. by eexists.
Qed.

(** A token that is not accepted raises [IndexError] when it has no
    [=] and [ValueError] when its value does not convert. *)
Lemma linkParam_bad (params : gmap string (Value F)) param :
  link_token_ok float_of_str param = false →
  linkParam float_of_str float_of_int params param
  = (Raised (if bool_decide (1 < length (split "=" param))%nat
             then ValueError else IndexError), []).
Proof.
  rewrite linkParam_eq. unfold link_token_ok.
  destruct (split "=" param) as [|key [|value rest]]; [done..|].
  rewrite (bool_decide_eq_true_2 (1 < length (key :: value :: rest))%nat)
    by (simpl; lia).
  case_bool_decide; [|case_bool_decide]; try done.
  - intros Hx. apply bool_decide_eq_false in Hx.
    destruct (int value); [|done]. exfalso. apply Hx. by eexists.
  - intros Hx. apply bool_decide_eq_false in Hx.
    destruct (float_of_str value); [|done]. exfalso. apply Hx. by eexists.
Qed.

Lemma linkParams_ok ps : ∀ params : gmap string (Value F),
  forallb (link_token_ok float_of_str) ps = true →
  ∃ params', for_each ps (linkParam float_of_str float_of_int) params
             = (Returned params', []).
Proof.
  induction ps as [|param ps IH]; intros params H; [by eexists|].
  simpl in H. apply andb_true_iff in H as [H1 H2].
  destruct (linkParam_ok params param H1) as [p1 Hp1].
  destruct (IH p1 H2) as [p2 Hp2].
  exists p2. by rewrite for_each_cons, Hp1, bind_pure.
Qed.

Lemma linkParams_first_bad good bad rest (params : gmap string (Value F)) :
  forallb (link_token_ok float_of_str) good = true →
  link_token_ok float_of_str bad = false →
  for_each (good ++ bad :: rest) (linkParam float_of_str float_of_int) params
  = (Raised (if bool_decide (1 < length (split "=" bad))%nat
             then ValueError else IndexError), []).
Proof.
  intros Hg Hb. rewrite for_each_app.
  destruct (linkParams_ok good params Hg) as [p1 ->].
  by rewrite bind_pure, for_each_cons, linkParam_bad, bind_Raised.
Qed.

Lemma linkParams_returned ps (params params' : gmap string (Value F)) evs :
  for_each ps (linkParam float_of_str float_of_int) params = (Returned params', evs) →
  forallb (link_token_ok float_of_str) ps = true.
Proof.
  intros H. destruct (forallb (link_token_ok float_of_str) ps) eqn:Hok; [done|].
  apply forallb_first_false in Hok as (good & bad & rest & -> & Hg & Hb).
  by rewrite linkParams_first_bad in H.
Qed.




Lemma linkItem_returned (topo topo' : Topo F) item evs :
  linkItem float_of_str float_of_int topo item = (Returned topo', evs) →
  link_item_ok float_of_str item = true.
Proof.
  intros H.
  apply linkItem_inv in H as (d & (v & params & n1 & n2 & rest & Hv & Hp & Hk & _) & _).
  unfold link_item_ok. rewrite Hv, Hk.
  apply linkParams_returned in Hp. by rewrite Hp.
Qed.

Lemma links_returned items : ∀ (topo topo' : Topo F) evs,
  for_each items (linkItem float_of_str float_of_int) topo = (Returned topo', evs) →
  forallb (link_item_ok float_of_str) items = true.
Proof.
  induction items as [|item items IH]; intros topo topo' evs; [done|].
  rewrite for_each_cons. intros H.
  apply bind_Returned_inv in H as (t1 & e1 & e2 & H1 & H2 & ->).
  simpl. by rewrite (linkItem_returned _ _ _ _ H1), (IH _ _ _ H2).
Qed.

End Links.

(** *** The conversions of a link value *)

Section Conversions.
Context {F : Type} (float_of_str : string → option F) (float_of_int : Z → F).

Lemma linkParam_float_of_int (float_of_int' : Z → F)
    (params : gmap string (Value F)) param :
  linkParam float_of_str float_of_int params param
  = linkParam float_of_str float_of_int' params param.
Proof. by rewrite !linkParam_eq. Qed.

End Conversions.

End ParserFacts.

(** ** The declarations of [processTopo], entry by entry *)

Module DeclarationFacts.
Import Py PyFacts Minindn TopologyFacts ParserFacts.

Lemma mapM_omap {A B} (f : A → option B) (l : list A) :
  Forall (λ x, is_Some (f x)) l → mapM f l = Some (omap f l).
Proof.
  induction 1 as [|x l [y Hy] _ IH]; [done|].
  simpl. by rewrite Hy, IH.
Qed.

Lemma node_token_pair param :
  node_token_ok param = true → param ≠ "_" → is_Some (key_value param).
Proof.
  unfold node_token_ok, key_value. intros H Hne.
  apply orb_true_iff in H as [H|H]; apply bool_decide_eq_true in H; [done|].
  destruct (split "=" param) as [|k [|v rest]]; simpl in H; [lia..|by eexists].
Qed.

(** The loop over the tokens of a node value builds [node_params]. *)
Lemma nodeParams_spec v (params : gmap string string) :
  for_each (split " " v) nodeParam ∅ = (Returned params, []) →
  node_params v = Some params.
Proof.
  intros H. unfold node_params.
  assert (Hok : forallb node_token_ok (split " " v) = true).
  { destruct (forallb node_token_ok (split " " v)) eqn:Hok; [done|].
    by rewrite nodeParams_bad in H. }
  rewrite (mapM_omap key_value).
  - apply nodeParams_pairs in H as ->. simpl.
    by rewrite (right_id_L ∅ (∪)).
  - apply Forall_forall. intros param Hin.
    apply list_elem_of_filter in Hin as [Hne Hin].
    apply node_token_pair; [|done].
    rewrite forallb_forall in Hok. apply Hok. by apply list_elem_of_In.
Qed.

Section Links.
Context {F : Type} (float_of_str : string → option F) (float_of_int : Z → F).

Lemma linkParam_pair (params params' : gmap string (Value F)) param evs :
  linkParam float_of_str float_of_int params param = (Returned params', evs) →
  ∃ pair, link_pair float_of_str param = Some pair
          ∧ params' = <[pair.1 := pair.2]> params.
Proof.
  rewrite linkParam_eq. unfold link_pair, key_value, typed.
  destruct (split "=" param) as [|key [|value rest]]; [done..|].
  cbn [mbind option_bind fst snd].
  case_bool_decide; [|case_bool_decide].
  - destruct (int value) as [n|]; [|done]. intros [= <- _]. by eexists (_, _).
  - destruct (float_of_str value) as [f|]; [|done]. intros [= <- _].
    by eexists (_, _).
  - intros [= <- _]. by eexists (_, _).
Qed.

(** The loop over the tokens of a link value adds the typed pairs of
    the tokens, a later one overriding an earlier one. *)
Lemma linkParams_pairs ps : ∀ (params params' : gmap string (Value F)) evs,
  for_each ps (linkParam float_of_str float_of_int) params = (Returned params', evs) →
  ∃ pairs, mapM (link_pair float_of_str) ps = Some pairs
           ∧ params' = list_to_map (reverse pairs) ∪ params.
Proof.
  induction ps as [|param ps IH]; intros params params' evs.
  - intros [= <- _]. exists []. split; [done|]. simpl.
    by rewrite (left_id_L ∅ (∪)).
  - rewrite for_each_cons. intros H.
    apply bind_Returned_inv in H as (p1 & e1 & e2 & H1 & H2 & ->).
    apply linkParam_pair in H1 as ([k x] & Hpair & ->).
    apply IH in H2 as (pairs & Hpairs & ->).
    exists ((k, x) :: pairs). split.
    + simpl. by rewrite Hpair, Hpairs.
    + rewrite reverse_cons, list_to_map_app. cbn [fst snd].
      rewrite <- (assoc_L (∪)). f_equal. simpl.
      by rewrite insert_empty, insert_union_singleton_l.
Qed.

Lemma host_decl_spec (item : string * option string) (d : Decl F) :
  host_decl item d → host_of item = Some d.
Proof.
  intros (v & params & Hv & Hp & ->). unfold host_of. rewrite Hv. simpl.
  by rewrite (nodeParams_spec _ _ Hp).
Qed.

Lemma link_decl_spec (item : string * option string) (d : Decl F) :
  link_decl float_of_str float_of_int item d → link_of float_of_str item = Some d.
Proof.
  intros (v & params & node1 & node2 & rest & Hv & Hp & Hk & ->).
  unfold link_of, link_params. rewrite Hv, Hk. simpl.
  apply linkParams_pairs in Hp as (pairs & -> & ->). simpl.
  by rewrite (right_id_L ∅ (∪)).
Qed.

End Links.

End DeclarationFacts.

Module TopologyTheorems.
Import Py PyFacts Minindn TopologyFacts DeclarationFacts Samples.

(** C3 (as amended).  When two entries of the nodes section carry the same
    coordinate value, that value is not [_], and every entry before the
    second of them has a value made of [_] and [key=value] tokens, then
    [processTopo] reports a duplicate coordinate as a fatal error and
    exits with status 1; it returns no topology. *)
Theorem duplicate_coordinate_exits {F} (float_of_str : string → option F)
    (float_of_int : Z → F) (config : gmap string Items)
    (before after : Items) (key v : string) :
  config !! "nodes" = Some (before ++ (key, Some v) :: after) →
  Some v ∈ before.*2 →
  v ≠ "_" →
  forallb node_value_ok before.*2 = true →
  ∃ v', v' ≠ "_"
        ∧ processTopo float_of_str float_of_int config
          = (Exited 1, [error (duplicate_message (Some v'))]).
Proof.
  intros Hn Hdup Hv Hwf.
  assert (∃ v', v' ≠ "_"
                ∧ for_each (before ++ (key, Some v) :: after) nodeItem ([], @nil (Decl F))
                  = (Exited 1, [error (duplicate_message (Some v'))]))
    as (v' & Hv' & Hloop).
  { rewrite for_each_app.
    destruct (nodes_well_formed before [] (@nil (Decl F)) Hwf)
      as [[t' Ht']|[v' [Hv' Hstop]]].
    - exists v. split; [done|]. rewrite_loop Ht'. rewrite bind_pure, for_each_cons.
      rewrite nodeItem_duplicate; [by rewrite bind_Exited|done|].
      simpl. congruence.
    - exists v'. split; [done|]. rewrite_loop Hstop. by rewrite bind_Exited. }
  exists v'. split; [done|].
  by apply (processTopo_nodes_exit float_of_str float_of_int config _ _ _ Hn).
Qed.

Lemma duplicate_coordinate_exits_witness :
  ∃ v', v' ≠ "_"
        ∧ processTopo text_float text_of_int same_place
          = (Exited 1, [error (duplicate_message (Some v'))]).
Proof.
  apply (duplicate_coordinate_exits text_float text_of_int same_place
           [("a:", Some "radius=1 angle=2")] [] "b:" "radius=1 angle=2").
  - reflexivity.
  - apply list_elem_of_singleton. reflexivity.
  - discriminate.
  - reflexivity.
Defined.

(** C3, counterexample.  Two nodes whose coordinate value is the same,
    [_]: [processTopo] returns a topology with both hosts and reports
    nothing. *)
Lemma shared_underscore_is_no_duplicate :
  no_coordinates !! "nodes" = Some [("a:", Some "_"); ("b:", Some "_")]
  ∧ processTopo text_float text_of_int no_coordinates
    = (Returned [addHost "a" ∅; addHost "b" ∅;
                 addLink "a" "b" (<["delay" := VStr "10ms"]> ∅)], []).
Proof. split; vm_compute; reflexivity. Qed.

(** C4.  In the parameters built for a link entry, every token of the
    entry leaves its key, and every value comes from a token [key=value]
    of the entry and is typed by its key: [int] of the text for [bw],
    [jitter] and [max_queue_size], [float] of the text for [loss], and the
    text itself, unchanged, for every other key. *)
Theorem link_parameters_are_typed {F} (float_of_str : string → option F)
    (float_of_int : Z → F) (v : string) (params : gmap string (Value F)) :
  for_each (split " " v) (linkParam float_of_str float_of_int) ∅
  = (Returned params, []) →
  (∀ param, param ∈ split " " v → is_Some (params !! first (split "=" param)))
  ∧ ∀ key x, params !! key = Some x →
    ∃ param value rest,
      param ∈ split " " v ∧ split "=" param = key :: value :: rest
      ∧ (key ∈ ["bw"; "jitter"; "max_queue_size"] →
         ∃ n, int value = Some n ∧ x = VInt n)
      ∧ (key = "loss" → ∃ f, float_of_str value = Some f ∧ x = VFloat f)
      ∧ (key ∉ ["bw"; "jitter"; "max_queue_size"] → key ≠ "loss" → x = VStr value).
Proof.
  intros H. split.
  - by apply linkParams_keys in H as [_ H].
  - intros key x Hx.
    apply linkParams_inv in H as [_ H].
    apply H in Hx as [Hx|Hx]; [by rewrite lookup_empty in Hx|done].
Qed.

Lemma link_parameters_are_typed_witness :
  ∃ param value rest,
    param ∈ split " " "delay=10ms bw=10 loss=0.5"
    ∧ split "=" param = "bw" :: value :: rest
    ∧ ("bw" ∈ ["bw"; "jitter"; "max_queue_size"] →
       ∃ n, int value = Some n ∧ VInt (F := string) 10 = VInt n)
    ∧ ("bw" = "loss" →
       ∃ f, text_float value = Some f ∧ VInt (F := string) 10 = VFloat f)
    ∧ ("bw" ∉ ["bw"; "jitter"; "max_queue_size"] → "bw" ≠ "loss" →
       VInt (F := string) 10 = VStr value).
Proof.
  apply (link_parameters_are_typed text_float text_of_int "delay=10ms bw=10 loss=0.5"
           (<["loss" := VFloat "0.5"]> (<["bw" := VInt 10]> (<["delay" := VStr "10ms"]> ∅)))).
  - vm_compute. reflexivity.
  - vm_compute. reflexivity.
Defined.

(** C5.  When [processTopo] returns a topology, the file has a nodes and a
    links section and the topology consists of one [addHost] per entry of
    the nodes section, with the name before the first colon of its key and
    the dictionary of the keys and values of its tokens, followed by one
    [addSwitch] per entry of the switches section (none when the file has
    no such section), followed by one [addLink] per entry of the links
    section, between the first two colon-separated names of its key and
    with the dictionary of its keys and typed values; nothing else is
    declared or reported. *)
Theorem processTopo_declarations {F} (float_of_str : string → option F)
    (float_of_int : Z → F) (config : gmap string Items) (topo : Topo F)
    (evs : list Event) :
  processTopo float_of_str float_of_int config = (Returned topo, evs) →
  ∃ nodes links hs ls,
    config !! "nodes" = Some nodes
    ∧ config !! "links" = Some links
    ∧ mapM host_of nodes = Some hs
    ∧ mapM (link_of float_of_str) links = Some ls
    ∧ topo = hs ++ (switch_of <$> default [] (config !! "switches")) ++ ls
    ∧ evs = [].
Proof.
  intros H.
  destruct (config !! "nodes") as [nodes|] eqn:Hn;
    [|by rewrite processTopo_no_nodes in H].
  destruct (for_each nodes nodeItem ([], @nil (Decl F)))
    as [[[cs t1]|e|n] e1] eqn:Hloop.
  - rewrite (processTopo_after_nodes _ _ _ _ _ _ _ Hn Hloop) in H.
    apply nodes_inv in Hloop as (hs & Hhs & _ & -> & ->).
    destruct (config !! "links") as [links|] eqn:Hl;
      [|by rewrite (config_items_None _ _ Hl), bind_Raised in H].
    rewrite (config_items_Some _ _ _ Hl), bind_pure in H.
    apply links_inv in H as (ls & Hls & -> & ->).
    exists nodes, links, hs, ls.
    repeat split; try done.
    + apply mapM_Some_2. eapply Forall2_impl; [exact Hhs|].
      intros item d. apply host_decl_spec.
    + apply mapM_Some_2. eapply Forall2_impl; [exact Hls|].
      intros item d. apply link_decl_spec.
    + by rewrite app_nil_l, app_assoc.
  - by rewrite (processTopo_nodes_raise _ _ _ _ _ _ Hn Hloop) in H.
  - by rewrite (processTopo_nodes_exit _ _ _ _ _ _ Hn Hloop) in H.
Qed.

Lemma processTopo_declarations_witness :
  ∃ nodes links hs ls,
    triangle !! "nodes" = Some nodes
    ∧ triangle !! "links" = Some links
    ∧ mapM host_of nodes = Some hs
    ∧ mapM (link_of text_float) links = Some ls
    ∧ (processTopo text_float text_of_int triangle).1
      = Returned (hs ++ (switch_of <$> default [] (triangle !! "switches")) ++ ls)
    ∧ (processTopo text_float text_of_int triangle).2 = [].
Proof.
  destruct (processTopo text_float text_of_int triangle) as [o evs] eqn:H.
  assert (Ho : ∃ topo, o = Returned topo).
  { revert H. vm_compute. intros [= <- _]. by eexists. }
  destruct Ho as [topo ->].
  destruct (processTopo_declarations text_float text_of_int triangle topo evs H)
    as (nodes & links & hs & ls & H1 & H2 & H3 & H4 & -> & ->).
  by exists nodes, links, hs, ls.
Defined.

(** C9.  The name of a node is the part of its key before the first
    colon.  An entry whose value is [_] is never a duplicate, whatever the
    coordinates seen so far, and its host is added with an empty parameter
    dictionary; so any number of such entries go through.  Every token [_]
    of a value is skipped and contributes no parameter. *)
Theorem underscore_entries {F} :
  (∀ key, no_sep ":" (first (split ":" key)) = true
          ∧ (key = first (split ":" key)
             ∨ ∃ rest, key = first (split ":" key) +:+ String ":" rest))
  ∧ (∀ coordinates (topo : Topo F) key,
       nodeItem (coordinates, topo) (key, Some "_")
       = (Returned (coordinates ++ [Some "_"],
                    topo ++ [addHost (first (split ":" key)) ∅]), []))
  ∧ (∀ (items : Items) coordinates (topo : Topo F),
       Forall (λ item, item.2 = Some "_") items →
       for_each items nodeItem (coordinates, topo)
       = (Returned (coordinates ++ items.*2,
                    topo ++ ((λ item, addHost (first (split ":" item.1)) ∅) <$> items)),
          []))
  ∧ (∀ ps (params : gmap string string),
       for_each ps nodeParam params
       = for_each (filter (λ param, param ≠ "_") ps) nodeParam params).
Proof.
  split; [intros key; apply split_first|].
  split; [apply nodeItem_underscore|].
  split; [intros; by apply nodes_underscore|].
  apply nodeParams_filter.
Qed.

Lemma underscore_entries_witness :
  for_each [("a:", Some "_"); ("b:1", Some "_"); ("c", Some "_")] nodeItem
    ([Some "x=1"], @nil (Decl string))
  = (Returned ([Some "x=1"; Some "_"; Some "_"; Some "_"],
               [addHost "a" ∅; addHost "b" ∅; addHost "c" ∅]), []).
Proof.
  apply (proj1 (proj2 (proj2 (@underscore_entries string)))).
  repeat constructor.
Defined.

End TopologyTheorems.

(** ** The constructor and [stop] *)

Module LifecycleFacts.
Import Py PyFacts Minindn Connectivity Allocation TopologyFacts.

Section Lifecycle.
Context {F : Type} (float_of_str : string → option F) (float_of_int : Z → F).
Context (read_config : string → gmap string Items).
Context (build : option (Topo F) → Mininet).

Lemma raise_if_none_quiet {A} e (x : option A) :
  Forall quiet (raise_if_none e x).2.
Proof. destruct x; constructor. Qed.

Lemma nodeItem_quiet (st : list (option string) * Topo F) item :
  Forall quiet (nodeItem st item).2.
Proof.
  destruct st as [c t]. unfold nodeItem. cbv zeta.
  destruct (bool_decide (item.2 ∈ c) && bool_decide (item.2 ≠ Some "_")).
  - rewrite emit_bind. by repeat constructor.
  - apply bind_Forall; [apply bind_Forall; [apply raise_if_none_quiet|by constructor]|].
    intros ps. apply bind_Forall; [|by constructor].
    rewrite (for_each_silent ps nodeParam ∅ nodeParam_silent). constructor.
Qed.

Lemma linkItem_quiet (topo : Topo F) item :
  Forall quiet (linkItem float_of_str float_of_int topo item).2.
Proof.
  unfold linkItem. cbv zeta.
  apply bind_Forall; [apply bind_Forall; [apply raise_if_none_quiet|by constructor]|].
  intros ps. apply bind_Forall.
  - rewrite (for_each_silent ps _ ∅ (linkParam_silent float_of_str float_of_int)).
    constructor.
  - intros params. apply bind_Forall; [|by constructor].
    rewrite subscript_1. by destruct (split ":" item.1) as [|? [|? ?]]; constructor.
Qed.

Lemma processTopo_quiet config :
  Forall quiet (processTopo float_of_str float_of_int config).2.
Proof.
  unfold processTopo. cbv zeta.
  apply bind_Forall; [apply raise_if_none_quiet|]. intros nodes.
  apply bind_Forall; [apply for_each_Forall, nodeItem_quiet|]. intros [cs t1].
  apply bind_Forall; [rewrite switches_part; constructor|]. intros t2.
  apply bind_Forall; [apply raise_if_none_quiet|]. intros links.
  apply for_each_Forall, linkItem_quiet.
Qed.

Lemma initParams_trace cls net nodes :
  initParams cls net nodes
  = (Returned tt,
     nodes ≫= λ host,
       [setParam host "workDir" (workDir cls);
        setParam host "homeDir" (workDir cls +:+ "/" +:+ name net host);
        cmd host ("mkdir -p " +:+ (workDir cls +:+ "/" +:+ name net host));
        cmd host ("export HOME=" +:+ (workDir cls +:+ "/" +:+ name net host)
                  +:+ " && cd ~")]).
Proof. unfold initParams. by apply for_each_calls. Qed.

Lemma initParams_quiet cls net nodes :
  Forall quiet (initParams cls net nodes).2.
Proof.
  rewrite initParams_trace. cbn [snd].
  induction nodes as [|host nodes IH]; [constructor|].
  by repeat constructor.
Qed.

Lemma settle_topo_quiet topoFile topo noTopo :
  Forall quiet (settle_topo float_of_str float_of_int read_config topoFile topo noTopo).2.
Proof.
  unfold settle_topo.
  destruct (bool_decide (topo = None) && negb noTopo); [|constructor].
  apply except_Forall.
  - rewrite emit_bind. cbn [snd]. constructor; [done|].
    apply bind_Forall; [apply processTopo_quiet|by constructor].
  - intros e. rewrite emit_bind. by repeat constructor.
Qed.

Lemma settle_topo_no_section topoFile s :
  (processTopo float_of_str float_of_int (read_config topoFile)).1
  = Raised (NoSectionError s) →
  (settle_topo float_of_str float_of_int read_config topoFile None false).1 = Exited 1.
Proof.
  intros H. unfold settle_topo.
  rewrite bool_decide_eq_true_2 by done. cbn [negb andb].
  unfold except_NoSectionError. rewrite emit_bind.
  destruct (processTopo float_of_str float_of_int (read_config topoFile))
    as [o evs]. simpl in H. subst o.
  rewrite bind_Raised. cbn [fst snd].
  rewrite bind_unfold, bind_Returned, emit_bind. reflexivity.
Qed.

Lemma init_eq args topo topoFile noTopo :
  init float_of_str float_of_int read_config build args topo topoFile noTopo
  = (topo' ← settle_topo float_of_str float_of_int read_config
               (if falsy topoFile then args_topoFile args else str topoFile)
               topo noTopo;
     let net := if negb noTopo then build topo' else build None in
     initParams (mkClassAttrs (args_workDir args) (args_resultDir args)) net (hosts net);;
     (if bool_decide (switches net = []) then ethernetPairConnectivity net
      else mret tt);;
     mret (mkClassAttrs (args_workDir args) (args_resultDir args),
           mkSelf (if falsy topoFile then args_topoFile args else str topoFile)
             topo' net [])).
Proof. reflexivity. Qed.

End Lifecycle.

(** *** The loop of [stop] over the files *)

Section Moves.
Context (raises : list string → string → string → option Exn) (dir : string).

Lemma move_returns moved file :
  raises moved file dir = None →
  move raises dir moved file = (Returned (moved ++ [file]), [shutil_move file dir]).
Proof. intros H. unfold move. by rewrite emit_bind, H. Qed.

Lemma move_raises moved file e :
  raises moved file dir = Some e →
  move raises dir moved file = (Raised e, [shutil_move file dir]).
Proof. intros H. unfold move. by rewrite emit_bind, H. Qed.

Lemma moves_all files : ∀ moved,
  (∀ done file rest,
     files = done ++ file :: rest → raises (moved ++ done) file dir = None) →
  for_each files (move raises dir) moved
  = (Returned (moved ++ files), (λ file, shutil_move file dir) <$> files).
Proof.
  induction files as [|file files IH]; intros moved H.
  - by rewrite app_nil_r.
  - rewrite for_each_cons, move_returns, bind_Returned.
    + rewrite IH.
      * by rewrite <- app_assoc.
      * intros done f rest ->. rewrite <- app_assoc.
        by apply (H (file :: done) f rest).
    + rewrite <- (app_nil_r moved). by apply (H [] file files).
Qed.

Lemma moves_first_failure done file rest e moved :
  (∀ d f r, done = d ++ f :: r → raises (moved ++ d) f dir = None) →
  raises (moved ++ done) file dir = Some e →
  for_each (done ++ file :: rest) (move raises dir) moved
  = (Raised e, (λ file, shutil_move file dir) <$> (done ++ [file])).
Proof.
  intros Hdone Hfile.
  rewrite for_each_app, moves_all, bind_Returned by done.
  rewrite for_each_cons, (move_raises _ _ _ Hfile), bind_Raised.
  by rewrite fmap_app.
Qed.

(** Whatever happens, the files moved are the first files of the list,
    and the loop does not exit. *)
Lemma moves_prefix files : ∀ moved,
  ∃ done,
    done `prefix_of` files
    ∧ (for_each files (move raises dir) moved).2
      = (λ file, shutil_move file dir) <$> done
    ∧ ∀ n, (for_each files (move raises dir) moved).1 ≠ Exited n.
Proof.
  induction files as [|file files IH]; intros moved.
  - exists []. by repeat split.
  - rewrite for_each_cons.
    destruct (raises moved file dir) as [e|] eqn:H.
    + rewrite (move_raises _ _ _ H), bind_Raised.
      exists [file]. repeat split; [|done].
      by apply prefix_cons, prefix_nil.
    + rewrite (move_returns _ _ H), bind_Returned.
      destruct (IH (moved ++ [file])) as (done & Hp & -> & Hn).
      exists (file :: done). repeat split; [by apply prefix_cons|done].
Qed.

End Moves.

End LifecycleFacts.

Module LifecycleTheorems.
Import Py PyFacts Minindn Connectivity Allocation TopologyFacts
  LifecycleFacts Samples.

(** C2.  When the constructor returns, its calls end with the calls of
    [ethernetPairConnectivity] on the network exactly when the network has
    no switches; otherwise, and before that point, it sets no address.
    Inside the routine, a visit whose link has a switch at either end
    changes nothing and sets no address. *)
Theorem addressing_iff_no_switches {F} (float_of_str : string → option F)
    (float_of_int : Z → F) (read_config : string → gmap string Items)
    (build : option (Topo F) → Mininet) (args : Args)
    (topo : option (Topo F)) (topoFile : option string) (noTopo : bool)
    (cls : ClassAttrs) (self : Self F) (evs : list Event) :
  init float_of_str float_of_int read_config build args topo topoFile noTopo
  = (Returned (cls, self), evs) →
  (∃ before,
     evs = before ++ (if bool_decide (switches (self_net self) = [])
                      then (ethernetPairConnectivity (self_net self)).2 else [])
     ∧ Forall quiet before)
  ∧ (∀ net st i,
       isSwitch net (node net (intf1 (link net i)))
       || isSwitch net (node net (intf2 (link net i))) = true →
       visit net st i = (Returned st, [])).
Proof.
  intros H. split.
  - rewrite init_eq in H.
    apply bind_Returned_inv in H as (topo' & e1 & r1 & H1 & H & ->).
    cbv zeta in H.
    apply bind_Returned_inv in H as ([] & e2 & r2 & H2 & H & ->).
    apply bind_Returned_inv in H as ([] & e3 & e4 & H3 & H & ->).
    rewrite mret_eq in H. injection H as <- <- <-. cbn [self_net].
    exists (e1 ++ e2). split.
    + rewrite app_nil_r, <- app_assoc. do 2 f_equal.
      revert H3. destruct (bool_decide _); intros H3.
      * by rewrite H3.
      * by injection H3.
    + apply Forall_app. split.
      * pose proof (settle_topo_quiet float_of_str float_of_int read_config
                      (if falsy topoFile then args_topoFile args else str topoFile)
                      topo noTopo) as Hq.
        by rewrite H1 in Hq.
      * match type of H2 with initParams ?c ?n ?h = _ =>
          pose proof (initParams_quiet c n h) as Hq end.
        by rewrite H2 in Hq.
  - intros net [base interfaces] i Hs. apply visit_skip.
    unfold allocates, host_link. by rewrite Hs.
Qed.

Lemma addressing_iff_no_switches_witness :
  ∃ before,
    (init text_float text_of_int (λ _, triangle) (λ _, chain 3)
       (mkArgs "topology.conf" "/tmp/minindn" None) None None false).2
    = before ++ (ethernetPairConnectivity (chain 3)).2
    ∧ Forall quiet before.
Proof.
  destruct (init text_float text_of_int (λ _, triangle) (λ _, chain 3)
              (mkArgs "topology.conf" "/tmp/minindn" None) None None false)
    as [o evs] eqn:H.
  assert (Ho : ∃ cls topoFile topo,
             o = Returned (cls, mkSelf topoFile topo (chain 3) [])).
  { revert H. vm_compute. intros [= <- _]. by eexists _, _, _. }
  destruct Ho as (cls & topoFile & topo & ->).
  apply (addressing_iff_no_switches _ _ _ _ _ _ _ _ _ _ _ H).
Defined.

(** C6.  [stop] calls every registered cleanup callback, each once and in
    registration order, and only then stops the network; no callback is
    called after that. *)
Theorem stop_runs_cleanups_first {F} (glob : string → list string)
    (shutil_move_raises : list string → string → string → option Exn)
    (cls : ClassAttrs) (self : Self F) :
  ∃ rest,
    (stop glob shutil_move_raises cls self).2
    = (cleanup <$> self_cleanups self) ++ net_stop :: rest
    ∧ List.filter is_cleanup rest = []
    ∧ net_stop ∉ rest.
Proof.
  unfold stop. rewrite for_each_emit, bind_Returned, emit_bind.
  destruct (resultDir cls) as [dir|].
  - rewrite !emit_bind.
    destruct (moves_prefix shutil_move_raises dir (glob (workDir cls +:+ "/*")) [])
      as (done & _ & Hdone & _).
    destruct (for_each _ _ _) as [[moved|e|n] evs]; cbn [snd] in Hdone; subst evs;
      rewrite ?bind_Returned, ?bind_Raised, ?bind_Exited, ?mret_eq, ?app_nil_r;
      cbn [fst snd]; eexists; (split; [reflexivity|]);
      cbn [List.filter is_cleanup]; (split;
        [induction done as [|file files IH]; [done|by rewrite fmap_cons]
        |rewrite !not_elem_of_cons; repeat split; try done;
         induction done as [|file files IH]; [apply not_elem_of_nil|];
         rewrite fmap_cons, not_elem_of_cons; by split]).
  - exists []. repeat split. apply not_elem_of_nil.
Qed.

(** C7 (as amended).  Without a result directory [stop] is over once the
    network is stopped: it makes no call on the file system.  With a
    result directory it creates the directory and then calls
    [shutil.move] on the paths that the pattern workDir/* matches, in the
    order [glob] lists them: on all of them when every move returns, and
    then [stop] returns; up to the first move that raises otherwise, and
    then [stop] ends with that exception and the paths after it are not
    moved. *)
Theorem stop_collects_results {F} (glob : string → list string)
    (shutil_move_raises : list string → string → string → option Exn)
    (cls : ClassAttrs) (self : Self F) :
  let files := glob (workDir cls +:+ "/*") in
  let moves dir done := (λ file, shutil_move file dir) <$> done in
  (resultDir cls = None →
   stop glob shutil_move_raises cls self
   = (Returned tt, (cleanup <$> self_cleanups self) ++ [net_stop]))
  ∧ (∀ dir,
       resultDir cls = Some dir →
       moves_return shutil_move_raises dir files →
       stop glob shutil_move_raises cls self
       = (Returned tt, stop_calls (self_cleanups self) dir ++ moves dir files))
  ∧ (∀ dir done file rest e,
       resultDir cls = Some dir →
       files = done ++ file :: rest →
       moves_return shutil_move_raises dir done →
       shutil_move_raises done file dir = Some e →
       stop glob shutil_move_raises cls self
       = (Raised e, stop_calls (self_cleanups self) dir ++ moves dir (done ++ [file]))).
Proof.
  intros files moves. unfold stop, stop_calls.
  rewrite for_each_emit, bind_Returned, emit_bind. repeat split.
  - by intros ->.
  - intros dir -> Hall. rewrite !emit_bind.
    fold files. rewrite moves_all by done.
    rewrite bind_Returned, mret_eq. cbn [fst snd].
    by rewrite app_nil_r, <- !app_assoc.
  - intros dir done file rest e -> Hfiles Hdone Hfile. rewrite !emit_bind.
    fold files. rewrite Hfiles, (moves_first_failure _ _ _ _ _ e) by done.
    rewrite bind_Raised. cbn [fst snd]. by rewrite <- !app_assoc.
Qed.

Lemma stop_collects_results_witness :
  stop three_files b_is_there (mkClassAttrs "/tmp/minindn" (Some "/results"))
    (mkSelf (F := string) "topology.conf" None (chain 2) [0%nat])
  = (Raised shutil_Error,
     [cleanup 0%nat; net_stop;
      info ("Moving results to '/results'" +:+ nl);
      os_system "mkdir -p /results";
      shutil_move "/tmp/minindn/a" "/results";
      shutil_move "/tmp/minindn/b" "/results"]).
Proof.
  apply (proj2 (proj2 (stop_collects_results three_files b_is_there
                         (mkClassAttrs "/tmp/minindn" (Some "/results"))
                         (mkSelf (F := string) "topology.conf" None (chain 2) [0%nat])))
           "/results" ["/tmp/minindn/a"] "/tmp/minindn/b" ["/tmp/minindn/c"]
           shutil_Error).
  - reflexivity.
  - reflexivity.
  - intros [|d done] file rest; [by intros [= <-]|].
    intros [= _ H]. by destruct done.
  - reflexivity.
Defined.

(** A path that the pattern matches and that [stop] does not move: the
    result directory already holds the name of the file before it. *)
Lemma a_failed_move_ends_the_collection :
  let r := stop three_files b_is_there (mkClassAttrs "/tmp/minindn" (Some "/results"))
             (mkSelf (F := string) "topology.conf" None (chain 2) []) in
  r.1 = Raised shutil_Error
  ∧ "/tmp/minindn/c" ∈ three_files "/tmp/minindn/*"
  ∧ shutil_move "/tmp/minindn/c" "/results" ∉ r.2.
Proof.
  split; [reflexivity|]. split.
  - unfold three_files. rewrite !elem_of_cons. tauto.
  - vm_compute. intros H. repeat (apply elem_of_cons in H as [H|H]; [done|]).
    by apply elem_of_nil in H.
Qed.

(** C10 (as amended).  A missing switches section is read as an empty one:
    [processTopo] behaves on the file as on the same file with an empty
    switches section, and returns normally when the entries of the nodes
    section and of the links section are processed without error.  A file
    without a nodes section raises [NoSectionError]; so does a file
    without a links section once its nodes section has been processed
    without error.  A constructor that reads the file turns a
    [NoSectionError] of [processTopo] into an exit with status 1. *)
Theorem switches_section_is_optional {F} (float_of_str : string → option F)
    (float_of_int : Z → F) (read_config : string → gmap string Items)
    (build : option (Topo F) → Mininet) (config : gmap string Items) :
  (config !! "switches" = None →
   processTopo float_of_str float_of_int config
   = processTopo float_of_str float_of_int (<["switches" := []]> config))
  ∧ (∀ nodes links cs (t1 t2 : Topo F),
       config !! "switches" = None →
       config !! "nodes" = Some nodes →
       config !! "links" = Some links →
       for_each nodes nodeItem ([], []) = (Returned (cs, t1), []) →
       for_each links (linkItem float_of_str float_of_int) t1 = (Returned t2, []) →
       processTopo float_of_str float_of_int config = (Returned t2, []))
  ∧ (config !! "nodes" = None →
     processTopo float_of_str float_of_int config
     = (Raised (NoSectionError "nodes"), []))
  ∧ (∀ nodes cs (t1 : Topo F),
       config !! "nodes" = Some nodes →
       config !! "links" = None →
       for_each nodes nodeItem ([], []) = (Returned (cs, t1), []) →
       processTopo float_of_str float_of_int config
       = (Raised (NoSectionError "links"), []))
  ∧ (∀ args topoFile section,
       (processTopo float_of_str float_of_int
          (read_config (if falsy topoFile then args_topoFile args else str topoFile))).1
       = Raised (NoSectionError section) →
       (init float_of_str float_of_int read_config build args None topoFile false).1
       = Exited 1).
Proof.
  repeat split.
  - intros Hs.
    assert (Hn : (<["switches" := []]> config : gmap string Items) !! "nodes"
                 = config !! "nodes") by by rewrite lookup_insert_ne.
    assert (Hl : (<["switches" := []]> config : gmap string Items) !! "links"
                 = config !! "links") by by rewrite lookup_insert_ne.
    destruct (config !! "nodes") as [nodes|] eqn:Hnodes.
    + destruct (for_each nodes nodeItem ([], @nil (Decl F)))
        as [[[cs t1]|e|n] e1] eqn:Hloop.
      * rewrite (processTopo_after_nodes _ _ _ _ _ _ _ Hnodes Hloop),
          (processTopo_after_nodes _ _ _ _ _ _ _ Hn Hloop).
        rewrite Hs, lookup_insert_eq. unfold config_items. by rewrite Hl.
      * by rewrite (processTopo_nodes_raise _ _ _ _ _ _ Hnodes Hloop),
          (processTopo_nodes_raise _ _ _ _ _ _ Hn Hloop).
      * by rewrite (processTopo_nodes_exit _ _ _ _ _ _ Hnodes Hloop),
          (processTopo_nodes_exit _ _ _ _ _ _ Hn Hloop).
    + by rewrite !processTopo_no_nodes.
  - intros nodes links cs t1 t2 Hs Hn Hl Hnodes Hlinks.
    rewrite (processTopo_after_nodes _ _ _ _ _ _ _ Hn Hnodes).
    rewrite (config_items_Some _ _ _ Hl), bind_pure, Hs.
    cbn [default from_option id fmap list_fmap]. rewrite app_nil_r. exact Hlinks.
  - apply processTopo_no_nodes.
  - intros nodes cs t1 Hn Hl Hnodes.
    rewrite (processTopo_after_nodes _ _ _ _ _ _ _ Hn Hnodes).
    by rewrite (config_items_None _ _ Hl), bind_Raised.
  - intros args topoFile section H.
    rewrite init_eq.
    pose proof (settle_topo_no_section float_of_str float_of_int read_config _ _ H) as Hx.
    destruct (settle_topo _ _ _ _ _ _) as [o evs]. simpl in Hx. subst o.
    by rewrite bind_Exited.
Qed.

Lemma switches_section_is_optional_witness :
  triangle !! "switches" = None
  ∧ ∃ topo, processTopo text_float text_of_int triangle = (Returned topo, []).
Proof.
  split; [reflexivity|]. eexists.
  eapply (proj1 (proj2 (switches_section_is_optional text_float text_of_int
                          (λ _, triangle) (λ _, chain 3) triangle))).
  - reflexivity.
  - reflexivity.
  - reflexivity.
  - lazy. reflexivity.
  - lazy. reflexivity.
Defined.

(** C10, counterexample.  A file with a nodes and a links section and no
    switches section, in which two nodes have the same coordinates:
    [processTopo] does not return; it exits with status 1. *)
Lemma no_switches_yet_no_return :
  same_place !! "switches" = None
  ∧ is_Some (same_place !! "nodes")
  ∧ is_Some (same_place !! "links")
  ∧ processTopo text_float text_of_int same_place
    = (Exited 1, [error (duplicate_message (Some "radius=1 angle=2"))]).
Proof. repeat split; try (by eexists); vm_compute; reflexivity. Qed.

End LifecycleTheorems.

Module ParserTheorems.
Import Py PyFacts Minindn TopologyFacts ParserFacts Samples.

(** X1.  The parameters of a node entry are read exactly when every token
    is [_] or has an [=]; any other token makes the loop raise
    [IndexError], and nothing else can go wrong in it. *)
Theorem node_parameters_outcome (ps : list string) (params : gmap string string) :
  (forallb node_token_ok ps = true →
   ∃ params', for_each ps nodeParam params = (Returned params', []))
  ∧ (forallb node_token_ok ps = false →
     for_each ps nodeParam params = (Raised IndexError, [])).
Proof. split; [apply nodeParams_ok|apply nodeParams_bad]. Qed.

Lemma node_parameters_outcome_witness :
  for_each (split " " "radius=1 angle") nodeParam ∅ = (Raised IndexError, []).
Proof.
  apply (proj2 (node_parameters_outcome (split " " "radius=1 angle") ∅)).
  reflexivity.
Defined.

(** X2.  The dictionary built for a node entry is the map of the keys and
    values of its tokens other than [_], read in order, so that a later
    token overrides an earlier one with the same key; of a token with
    several [=] only the first two fields count. *)
Theorem node_parameters_last_wins (ps : list string) (params : gmap string string) :
  for_each ps nodeParam ∅ = (Returned params, []) →
  params = list_to_map (reverse (node_pairs ps)).
Proof.
  intros H. apply nodeParams_pairs in H as ->.
  by rewrite (right_id_L ∅ (∪)).
Qed.

Lemma node_parameters_last_wins_witness :
  (<["angle" := "2"]> (<["radius" := "3"]> ∅) : gmap string string)
  = list_to_map (reverse (node_pairs (split " " "radius=1 _ angle=2=x radius=3"))).
Proof.
  apply (node_parameters_last_wins (split " " "radius=1 _ angle=2=x radius=3")).
  vm_compute. reflexivity.
Defined.

(** X3.  In the parameters of a link entry the first token that is not
    accepted decides the exception: [IndexError] when it has no [=] (as
    the token [_] that node entries allow), [ValueError] when its value
    does not convert to the number its key asks for. *)
Theorem link_parameters_first_failure {F} (float_of_str : string → option F)
    (float_of_int : Z → F) (good rest : list string) (bad : string)
    (params : gmap string (Value F)) :
  forallb (link_token_ok float_of_str) good = true →
  link_token_ok float_of_str bad = false →
  for_each (good ++ bad :: rest) (linkParam float_of_str float_of_int) params
  = (Raised (if bool_decide (1 < length (split "=" bad))%nat
             then ValueError else IndexError), []).
Proof. apply linkParams_first_bad. Qed.

Lemma link_parameters_first_failure_witness :
  for_each (split " " "delay=10ms bw=fast _")
    (linkParam text_float text_of_int) ∅
  = (Raised ValueError, [])
  ∧ for_each (split " " "_") (linkParam text_float text_of_int) ∅
    = (Raised IndexError, []).
Proof.
  split.
  - apply (link_parameters_first_failure text_float text_of_int
             ["delay=10ms"] ["_"] "bw=fast" ∅); reflexivity.
  - apply (link_parameters_first_failure text_float text_of_int
             [] [] "_" ∅); reflexivity.
Defined.

(** X4.  [processTopo] returns a topology only for files that have a nodes
    and a links section, in which every node value is made of [_] and
    [key=value] tokens and no coordinate other than [_] occurs twice, and
    in which every link has a value of [key=value] tokens whose numeric
    values convert and a key with a colon. *)
Theorem processTopo_returns_only_accepted {F} (float_of_str : string → option F)
    (float_of_int : Z → F) (config : gmap string Items) (topo : Topo F)
    (evs : list Event) :
  processTopo float_of_str float_of_int config = (Returned topo, evs) →
  accepts float_of_str config = true.
Proof.
  unfold accepts. intros H.
  destruct (config !! "nodes") as [nodes|] eqn:Hn;
    [|by rewrite processTopo_no_nodes in H].
  destruct (for_each nodes nodeItem ([], @nil (Decl F)))
    as [[[cs t1]|e|n] e1] eqn:Hloop.
  - rewrite (processTopo_after_nodes _ _ _ _ _ _ _ Hn Hloop) in H.
    apply nodes_returned in Hloop as [Hok Hnd].
    destruct (config !! "links") as [links|] eqn:Hl;
      [|by rewrite (config_items_None _ _ Hl), bind_Raised in H].
    rewrite (config_items_Some _ _ _ Hl), bind_pure in H.
    apply links_returned in H. rewrite Hok, H, !andb_true_r.
    apply bool_decide_eq_true. apply Hnd. constructor.
  - by rewrite (processTopo_nodes_raise _ _ _ _ _ _ Hn Hloop) in H.
  - by rewrite (processTopo_nodes_exit _ _ _ _ _ _ Hn Hloop) in H.
Qed.

Lemma processTopo_returns_only_accepted_witness :
  accepts text_float triangle = true.
Proof.
  destruct (processTopo text_float text_of_int triangle) as [o evs] eqn:H.
  assert (Ho : ∃ topo, o = Returned topo).
  { revert H. vm_compute. intros [= <- _]. by eexists. }
  destruct Ho as [topo ->].
  apply (processTopo_returns_only_accepted text_float text_of_int triangle topo evs H).
Defined.


(** X6.  A node entry whose value has a token without [=] other than [_],
    reached after entries that were read without error, makes
    [processTopo] raise [IndexError] without a call; it cannot count as a
    duplicate.  This is what happens to a key written without a value,
    for which the parser hands out the empty string. *)
Theorem malformed_node_value_raises {F} (float_of_str : string → option F)
    (float_of_int : Z → F) (config : gmap string Items)
    (before after : Items) (key v : string) cs (topo : Topo F) evs :
  config !! "nodes" = Some (before ++ (key, Some v) :: after) →
  for_each before nodeItem ([], []) = (Returned (cs, topo), evs) →
  forallb node_token_ok (split " " v) = false →
  processTopo float_of_str float_of_int config = (Raised IndexError, []).
Proof.
  intros Hn Hloop Hv.
  apply (processTopo_nodes_raise float_of_str float_of_int config _ _ _ Hn).
  rewrite for_each_app. pose proof Hloop as Hinv.
  apply nodes_inv in Hinv as (ds & Hds & -> & _ & ->).
  pose proof (nodes_returned _ _ _ _ _ _ Hloop) as [Hok _].
  rewrite_loop Hloop. rewrite bind_pure, for_each_cons.
  rewrite nodeItem_fresh.
  - cbn [fst snd]. by rewrite tokens_Some, bind_pure, nodeParams_bad, !bind_Raised.
  - cbn [snd]. intros [Hin _]. rewrite app_nil_l in Hin.
    rewrite forallb_forall in Hok.
    apply list_elem_of_In, Hok in Hin. simpl in Hin. congruence.
Qed.

Lemma malformed_node_value_raises_witness :
  processTopo text_float text_of_int bare_node = (Raised IndexError, []).
Proof.
  apply (malformed_node_value_raises text_float text_of_int bare_node
           [("a:", Some "_")] [] "b:" "" [Some "_"] [addHost "a" ∅] []);
    reflexivity.
Defined.

(** X8.  No value is converted twice: a value that went through [int] is
    never passed to [float], so the result of [processTopo] does not depend
    on how an [int] would be turned into a [float]. *)
Theorem no_value_is_converted_twice {F} (float_of_str : string → option F)
    (float_of_int float_of_int' : Z → F) (config : gmap string Items) :
  processTopo float_of_str float_of_int config
  = processTopo float_of_str float_of_int' config.
Proof.
  unfold processTopo. cbv zeta.
  apply bind_ext. intros nodes. apply bind_ext. intros [cs t1].
  apply bind_ext. intros t2. apply bind_ext. intros links.
  apply for_each_ext. intros topo item. unfold linkItem. cbv zeta.
  apply bind_ext. intros ps.
  f_equal. apply for_each_ext. intros params param.
  apply linkParam_float_of_int.
Qed.

End ParserTheorems.

(** ** More on the addressing: which addresses, on which interfaces *)

Module AddressingFacts.
Import Py PyFacts MininetUtil MininetUtilFacts Minindn Connectivity Allocation.

Lemma app_length_string (s t : string) :
  String.length (s +:+ t) = (String.length s + String.length t)%nat.
Proof. induction s as [|c s IH]; [done|]. rewrite app_String. simpl. by rewrite IH. Qed.

(** A common suffix can be dropped. *)
Lemma app_inv_suffix (s1 s2 t : string) : s1 +:+ t = s2 +:+ t → s1 = s2.
Proof.
  revert s2. induction s1 as [|c s1 IH]; intros [|c2 s2] H.
  - done.
  - apply (f_equal String.length) in H.
    rewrite app_empty, app_String in H. simpl in H.
    rewrite app_length_string in H. lia.
  - apply (f_equal String.length) in H.
    rewrite app_empty, app_String in H. simpl in H.
    rewrite app_length_string in H. lia.
  - rewrite !app_String in H. injection H as -> H. f_equal. by apply IH.
Qed.

Lemma ipStr_inj_mod a b : ipStr a = ipStr b → a mod 2 ^ 32 = b mod 2 ^ 32.
Proof.
  intros H. apply (f_equal ipParse) in H. rewrite !ipParse_ipStr in H.
  by injection H.
Qed.

Lemma address_inj k1 k2 :
  0 ≤ k1 < 2 ^ 32 → 0 ≤ k2 < 2 ^ 32 → address k1 = address k2 → k1 = k2.
Proof.
  intros H1 H2 H. unfold address in H.
  apply app_inv_suffix, ipStr_inj_mod in H.
  assert (Hk : (167772160 + k1 - (167772160 + k2)) mod 2 ^ 32 = 0).
  { rewrite Zminus_mod, H, Z.sub_diag. done. }
  apply Z.mod_divide in Hk as [q Hq]; [|done]. nia.
Qed.

Lemma elem_of_offsets x n len :
  x ∈ offsets n len →
  4 * Z.of_nat n + 1 ≤ x ≤ 4 * Z.of_nat (n + len) - 2.
Proof.
  revert n. induction len as [|len IH]; intros n H; [by apply elem_of_nil in H|].
  simpl in H. apply elem_of_cons in H as [->|H]; [lia|].
  apply elem_of_cons in H as [->|H]; [lia|].
  apply IH in H. lia.
Qed.

Lemma offsets_NoDup n len : NoDup (offsets n len).
Proof.
  revert n. induction len as [|len IH]; intros n; [constructor|].
  simpl. apply NoDup_cons. split.
  - rewrite not_elem_of_cons. split; [lia|].
    intros H. apply elem_of_offsets in H. lia.
  - apply NoDup_cons. split; [|apply IH].
    intros H. apply elem_of_offsets in H. lia.
Qed.

Lemma addresses_pair_calls net n ls :
  addresses (pair_calls net n ls) = address <$> offsets n (length ls).
Proof.
  revert n. induction ls as [|l ls IH]; intros n; [done|].
  simpl. unfold addresses in IH. by rewrite IH.
Qed.

(** An allocated link was met on the walk and joins two hosts. *)
Lemma elem_of_allocation net w : ∀ interfaces l,
  l ∈ allocation net interfaces w →
  host_link net l = true ∧ ∃ j, j ∈ w ∧ l = link net j.
Proof.
  induction w as [|i w IH]; intros interfaces l H; [by apply elem_of_nil in H|].
  simpl in H. destruct (allocates net interfaces (link net i)) eqn:Ha.
  - apply elem_of_cons in H as [->|H].
    + unfold allocates in Ha. apply andb_true_iff in Ha as [Ha _].
      apply andb_true_iff in Ha as [Ha _]. split; [done|].
      exists i. split; [by apply elem_of_cons; left|done].
    + apply IH in H as [Hh (j & Hj & ->)]. split; [done|].
      exists j. split; [by apply elem_of_cons; right|done].
  - apply IH in H as [Hh (j & Hj & ->)]. split; [done|].
    exists j. split; [by apply elem_of_cons; right|done].
Qed.

Lemma elem_of_pair_calls net e n ls :
  e ∈ pair_calls net n ls →
  ∃ l k, l ∈ ls ∧ (e = setIP (node net (intf1 l)) (address k) (intf1 l)
                   ∨ e = setIP (node net (intf2 l)) (address k) (intf2 l)).
Proof.
  revert n. induction ls as [|l ls IH]; intros n H; [by apply elem_of_nil in H|].
  simpl in H. apply elem_of_cons in H as [->|H].
  { exists l, (4 * Z.of_nat n + 1). split; [by apply elem_of_cons; left|by left]. }
  apply elem_of_cons in H as [->|H].
  { exists l, (4 * Z.of_nat n + 2). split; [by apply elem_of_cons; left|by right]. }
  apply IH in H as (l' & k & Hl & He).
  exists l', k. split; [by apply elem_of_cons; right|done].
Qed.

End AddressingFacts.

Module AddressingTheorems.
Import Py PyFacts MininetUtil MininetUtilFacts Minindn Connectivity Allocation
  AddressingFacts Samples.

(** X9.  Printing an address and parsing it back gives the address again,
    reduced to 32 bits; so the base that the routine keeps as a string
    between two allocations loses nothing, and two numbers below 2^32 with
    the same dotted form are equal. *)
Theorem ipParse_inverts_ipStr (ip : Z) :
  ipParse (ipStr ip) = Some (ip mod 2 ^ 32)
  ∧ ∀ ip', 0 ≤ ip < 2 ^ 32 → 0 ≤ ip' < 2 ^ 32 → ipStr ip = ipStr ip' → ip = ip'.
Proof.
  split; [apply ipParse_ipStr|].
  intros ip' H1 H2 H. apply ipStr_inj_mod in H.
  by rewrite !Z.mod_small in H.
Qed.

Lemma ipParse_inverts_ipStr_witness :
  ipParse (ipStr 167772417) = Some (167772417 mod 2 ^ 32)
  ∧ (ipStr 167772417 = ipStr 167772417 → 167772417 = 167772417).
Proof.
  destruct (ipParse_inverts_ipStr 167772417) as [H1 H2].
  split; [exact H1|]. apply H2; lia.
Defined.

(** X10.  As long as at most 2^30 links are allocated, the addresses that
    the routine sets are pairwise different: no two interfaces are given
    the same address. *)
Theorem addresses_are_distinct (net : Mininet) :
  Z.of_nat (length (allocated net)) ≤ 2 ^ 30 →
  NoDup (addresses (ethernetPairConnectivity net).2).
Proof.
  intros Hlen. rewrite ethernetPairConnectivity_trace. cbn [snd].
  rewrite addresses_pair_calls.
  apply NoDup_fmap_2_strong; [|apply offsets_NoDup].
  intros k1 k2 H1 H2. apply elem_of_offsets in H1, H2.
  apply address_inj; lia.
Qed.

Lemma addresses_are_distinct_witness :
  NoDup (addresses (ethernetPairConnectivity (chain 4)).2).
Proof. apply (addresses_are_distinct (chain 4)). vm_compute. discriminate. Defined.

(** X11.  The routine issues no call but [setIP], and every such call sets
    an address on an interface of a link that was met on the walk and has
    no switch at either end, through the node that the interface belongs
    to, which therefore is no switch. *)
Theorem only_hosts_get_addresses (net : Mininet) (e : Event) :
  e ∈ (ethernetPairConnectivity net).2 →
  ∃ i k j,
    e = setIP (node net i) (address k) i
    ∧ isSwitch net (node net i) = false
    ∧ j ∈ walk net
    ∧ host_link net (link net j) = true
    ∧ (i = intf1 (link net j) ∨ i = intf2 (link net j)).
Proof.
  rewrite ethernetPairConnectivity_trace. cbn [snd]. intros H.
  apply elem_of_pair_calls in H as (l & k & Hl & He).
  apply elem_of_allocation in Hl as [Hh (j & Hj & ->)].
  pose proof Hh as Hh'. unfold host_link in Hh'.
  apply negb_true_iff, orb_false_iff in Hh' as [Hs1 Hs2].
  destruct He as [->| ->].
  - exists (intf1 (link net j)), k, j. repeat split; try done. by left.
  - exists (intf2 (link net j)), k, j. repeat split; try done. by right.
Qed.

Lemma only_hosts_get_addresses_witness :
  ∃ i k j,
    setIP 1%nat "10.0.0.2/30" 1%nat = setIP (node (chain 3) i) (address k) i
    ∧ isSwitch (chain 3) (node (chain 3) i) = false
    ∧ j ∈ walk (chain 3)
    ∧ host_link (chain 3) (link (chain 3) j) = true
    ∧ (i = intf1 (link (chain 3) j) ∨ i = intf2 (link (chain 3) j)).
Proof.
  apply (only_hosts_get_addresses (chain 3) (setIP 1%nat "10.0.0.2/30" 1%nat)).
  vm_compute. apply elem_of_cons. right. apply elem_of_cons. by left.
Defined.

End AddressingTheorems.

(** ** More on the constructor *)

Module ConstructorFacts.
Import Py PyFacts Minindn Connectivity TopologyFacts LifecycleFacts.

Section Constructor.
Context {F : Type} (float_of_str : string → option F) (float_of_int : Z → F).
Context (read_config : string → gmap string Items).
Context (build : option (Topo F) → Mininet).

(** The outcome of the constructor is that of its first step: what
    follows it always returns. *)
Lemma init_outcome args topo topoFile noTopo :
  (init float_of_str float_of_int read_config build args topo topoFile noTopo).1
  = match (settle_topo float_of_str float_of_int read_config
             (if falsy topoFile then args_topoFile args else str topoFile)
             topo noTopo).1 with
    | Returned topo' =>
        Returned (mkClassAttrs (args_workDir args) (args_resultDir args),
                  mkSelf (if falsy topoFile then args_topoFile args else str topoFile)
                    topo' (if negb noTopo then build topo' else build None) [])
    | Raised e => Raised e
    | Exited n => Exited n
    end.
Proof.
  rewrite init_eq.
  destruct (settle_topo _ _ _ _ _ _) as [[topo'|e|n] evs]; [|done..].
  rewrite bind_Returned. cbv zeta.
  rewrite initParams_trace, bind_Returned.
  destruct (bool_decide (switches _ = [])).
  - by rewrite ethernetPairConnectivity_trace, bind_Returned, mret_eq.
  - by rewrite mret_bind, mret_eq.
Qed.

(** The first step, by the outcome of [processTopo]. *)
Lemma settle_topo_parse topoFile :
  settle_topo float_of_str float_of_int read_config topoFile None false
  = match processTopo float_of_str float_of_int (read_config topoFile) with
    | (Returned t, evs) =>
        (Returned (Some t),
         info ("Generating topology frp, file " +:+ topoFile +:+ nl) :: evs)
    | (Raised (NoSectionError e), evs) =>
        (Exited 1,
         info ("Generating topology frp, file " +:+ topoFile +:+ nl) :: evs
         ++ [info ("Error reading config file: No section: '" +:+ e +:+ "'" +:+ nl)])
    | (Raised e, evs) =>
        (Raised e,
         info ("Generating topology frp, file " +:+ topoFile +:+ nl) :: evs)
    | (Exited n, evs) =>
        (Exited n,
         info ("Generating topology frp, file " +:+ topoFile +:+ nl) :: evs)
    end.
Proof.
  unfold settle_topo. rewrite bool_decide_eq_true_2 by done. cbn [negb andb].
  rewrite emit_bind.
  destruct (processTopo float_of_str float_of_int (read_config topoFile))
    as [[t|e|n] evs].
  - by rewrite bind_Returned, mret_eq, app_nil_r.
  - rewrite bind_Raised. unfold except_NoSectionError. cbn [fst snd].
    by destruct e.
  - by rewrite bind_Exited.
Qed.

Lemma settle_topo_given topoFile topo noTopo :
  topo ≠ None ∨ noTopo = true →
  settle_topo float_of_str float_of_int read_config topoFile topo noTopo
  = (Returned topo, []).
Proof.
  unfold settle_topo. intros [H| ->].
  - by rewrite (bool_decide_eq_false_2 _ H).
  - by rewrite andb_false_r.
Qed.

End Constructor.
End ConstructorFacts.

Module ConstructorTheorems.
Import Py PyFacts Minindn Connectivity TopologyFacts LifecycleFacts
  ConstructorFacts Samples.

(** X12.  The constructor never lets a [NoSectionError] out, whatever its
    arguments and whatever the file holds. *)
Theorem init_never_raises_NoSectionError {F} (float_of_str : string → option F)
    (float_of_int : Z → F) (read_config : string → gmap string Items)
    (build : option (Topo F) → Mininet) (args : Args)
    (topo : option (Topo F)) (topoFile : option string) (noTopo : bool)
    (section : string) :
  (init float_of_str float_of_int read_config build args topo topoFile noTopo).1
  ≠ Raised (NoSectionError section).
Proof.
  rewrite init_outcome.
  destruct (decide (topo ≠ None ∨ noTopo = true)) as [H|H].
  - by rewrite settle_topo_given.
  - assert (topo = None ∧ noTopo = false) as [-> ->].
    { destruct topo, noTopo; try done; exfalso; apply H; auto. }
    rewrite settle_topo_parse.
    destruct (processTopo _ _ _) as [[t|e|n] evs]; try done.
    by destruct e.
Qed.

Lemma init_never_raises_NoSectionError_witness :
  (init text_float text_of_int (λ _, ∅) (λ _, chain 3)
     (mkArgs "topology.conf" "/tmp/minindn" None) None None false).1
  ≠ Raised (NoSectionError "nodes").
Proof.
  apply (init_never_raises_NoSectionError text_float text_of_int (λ _, ∅)
           (λ _, chain 3) (mkArgs "topology.conf" "/tmp/minindn" None)
           None None false "nodes").
Defined.

(** X13.  Any other failure of [processTopo] goes through the constructor
    unchanged: an [IndexError], [AttributeError] or [ValueError] is
    raised again and the exit at a duplicate coordinate stays an exit.  In
    both cases the constructor has by then only logged that it reads the
    file: no network is built, no host is prepared, no address is set. *)
Theorem init_passes_parser_failures_on {F} (float_of_str : string → option F)
    (float_of_int : Z → F) (read_config : string → gmap string Items)
    (build : option (Topo F) → Mininet) (args : Args) (topoFile : option string) :
  let file := if falsy topoFile then args_topoFile args else str topoFile in
  (∀ e evs, (∀ section, e ≠ NoSectionError section) →
     processTopo float_of_str float_of_int (read_config file) = (Raised e, evs) →
     init float_of_str float_of_int read_config build args None topoFile false
     = (Raised e, info ("Generating topology frp, file " +:+ file +:+ nl) :: evs))
  ∧ (∀ n evs,
       processTopo float_of_str float_of_int (read_config file) = (Exited n, evs) →
       init float_of_str float_of_int read_config build args None topoFile false
       = (Exited n, info ("Generating topology frp, file " +:+ file +:+ nl) :: evs)).
Proof.
  intros file. split.
  - intros e evs He H.
    pose proof (settle_topo_parse float_of_str float_of_int read_config file) as Hs.
    rewrite H in Hs.
    assert (Hs' : settle_topo float_of_str float_of_int read_config file None false
                  = (Raised e,
                     info ("Generating topology frp, file " +:+ file +:+ nl) :: evs)).
    { destruct e; try done. by destruct (He section). }
    rewrite init_eq. fold file. by rewrite Hs', bind_Raised.
  - intros n evs H.
    pose proof (settle_topo_parse float_of_str float_of_int read_config file) as Hs.
    rewrite H in Hs. rewrite init_eq. fold file. by rewrite Hs, bind_Exited.
Qed.

Lemma init_passes_parser_failures_on_witness :
  init text_float text_of_int (λ _, same_place) (λ _, chain 3)
    (mkArgs "topology.conf" "/tmp/minindn" None) None None false
  = (Exited 1,
     [info ("Generating topology frp, file topology.conf" +:+ nl);
      error (duplicate_message (Some "radius=1 angle=2"))]).
Proof.
  apply (proj2 (init_passes_parser_failures_on text_float text_of_int
                  (λ _, same_place) (λ _, chain 3)
                  (mkArgs "topology.conf" "/tmp/minindn" None) None)).
  vm_compute. reflexivity.
Defined.

(** X14.  When a topology object is passed in, or [noTopo] is set, the
    constructor does not read the topology file and always returns; the
    object keeps the topology it was given, has no cleanup registered, and
    its network is built from that topology, or from none under
    [noTopo]. *)
Theorem init_with_topology_reads_no_file {F} (float_of_str : string → option F)
    (float_of_int : Z → F) (read_config read_config' : string → gmap string Items)
    (build : option (Topo F) → Mininet) (args : Args)
    (topo : option (Topo F)) (topoFile : option string) (noTopo : bool) :
  topo ≠ None ∨ noTopo = true →
  init float_of_str float_of_int read_config build args topo topoFile noTopo
  = init float_of_str float_of_int read_config' build args topo topoFile noTopo
  ∧ (init float_of_str float_of_int read_config build args topo topoFile noTopo).1
    = Returned (mkClassAttrs (args_workDir args) (args_resultDir args),
                mkSelf (if falsy topoFile then args_topoFile args else str topoFile)
                  topo (if negb noTopo then build topo else build None) []).
Proof.
  intros H. split.
  - by rewrite !init_eq, !settle_topo_given.
  - by rewrite init_outcome, settle_topo_given.
Qed.

Lemma init_with_topology_reads_no_file_witness :
  (init text_float text_of_int (λ _, same_place) (λ _, chain 3)
     (mkArgs "topology.conf" "/tmp/minindn" None) (Some []) None false).1
  = Returned (mkClassAttrs "/tmp/minindn" None,
              mkSelf "topology.conf" (Some []) (chain 3) []).
Proof.
  apply (init_with_topology_reads_no_file text_float text_of_int
           (λ _, same_place) (λ _, ∅) (λ _, chain 3)
           (mkArgs "topology.conf" "/tmp/minindn" None) (Some []) None false).
  by left.
Defined.

End ConstructorTheorems.

(** ** [verifyDependencies] *)

Module DependenciesFacts.
Import Py PyFacts Minindn ParserFacts.

Section Probe.
Context (status : list string → Z).

Lemma verifyProgram_found program :
  status ["which"; program] = 0 →
  verifyProgram status tt program = (Returned tt, [call ["which"; program]]).
Proof.
  intros H. unfold verifyProgram. rewrite emit_bind. cbv beta.
  by rewrite bool_decide_eq_false_2 by (by intros []).
Qed.

Lemma verifyProgram_missing program :
  status ["which"; program] ≠ 0 →
  verifyProgram status tt program
  = (Exited 1, [call ["which"; program]; log_error (missing_message program)]).
Proof.
  intros H. unfold verifyProgram. rewrite emit_bind. cbv beta.
  rewrite bool_decide_eq_true_2 by done. by rewrite emit_bind.
Qed.

Lemma probes_found programs :
  Forall (λ program, status ["which"; program] = 0) programs →
  for_each programs (verifyProgram status) tt
  = (Returned tt, (λ program, call ["which"; program]) <$> programs).
Proof.
  induction 1 as [|program programs Hp _ IH]; [done|].
  by rewrite for_each_cons, verifyProgram_found, bind_Returned, IH.
Qed.

(** The loop stops at the first program that is not found. *)
Lemma probes_missing found program rest :
  Forall (λ program, status ["which"; program] = 0) found →
  status ["which"; program] ≠ 0 →
  for_each (found ++ program :: rest) (verifyProgram status) tt
  = (Exited 1,
     ((λ program, call ["which"; program]) <$> found ++ [program])
     ++ [log_error (missing_message program)]).
Proof.
  intros Hf Hp. rewrite for_each_app, probes_found, bind_Returned by done.
  rewrite for_each_cons, verifyProgram_missing, bind_Exited by done.
  cbn [fst snd]. by rewrite fmap_app, <- app_assoc.
Qed.

Lemma first_missing programs :
  ¬ Forall (λ program, status ["which"; program] = 0) programs →
  ∃ found program rest,
    programs = found ++ program :: rest
    ∧ Forall (λ program, status ["which"; program] = 0) found
    ∧ status ["which"; program] ≠ 0.
Proof.
  intros H.
  destruct (forallb (λ program, bool_decide (status ["which"; program] = 0)) programs)
    eqn:Hb.
  - exfalso. apply H, Forall_forall. intros program Hin.
    rewrite forallb_forall in Hb.
    apply list_elem_of_In, Hb in Hin. by apply bool_decide_eq_true in Hin.
  - apply forallb_first_false in Hb as (found & program & rest & -> & Hf & Hp).
    exists found, program, rest. split; [done|]. split.
    + apply Forall_forall. intros q Hq. rewrite forallb_forall in Hf.
      apply list_elem_of_In, Hf in Hq. by apply bool_decide_eq_true in Hq.
    + by apply bool_decide_eq_false in Hp.
Qed.

Lemma verifyDependencies_missing found program rest :
  dependencies = found ++ program :: rest →
  Forall (λ program, status ["which"; program] = 0) found →
  status ["which"; program] ≠ 0 →
  verifyDependencies status
  = (Exited 1,
     open_devnull
     :: ((λ program, call ["which"; program]) <$> found ++ [program])
     ++ [log_error (missing_message program)]).
Proof.
  intros Hd Hf Hp. unfold verifyDependencies.
  rewrite emit_bind, Hd, probes_missing, bind_Exited by done. reflexivity.
Qed.

Lemma verifyDependencies_found :
  Forall (λ program, status ["which"; program] = 0) dependencies →
  verifyDependencies status
  = (Returned tt,
     open_devnull
     :: ((λ program, call ["which"; program]) <$> dependencies)
     ++ [close_devnull]).
Proof.
  intros H. unfold verifyDependencies.
  rewrite emit_bind, probes_found, bind_Returned by done. reflexivity.
Qed.

End Probe.
End DependenciesFacts.

Module DependenciesTheorems.
Import Py PyFacts Minindn ParserFacts DependenciesFacts Samples.

(** X15.  [verifyDependencies] returns exactly when [which] finds all five
    programs; otherwise it exits with status 1. *)
Theorem verifyDependencies_outcome (status : list string → Z) :
  (verifyDependencies status).1
  = if bool_decide (Forall (λ program, status ["which"; program] = 0) dependencies)
    then Returned tt else Exited 1.
Proof.
  case_bool_decide as H.
  - by rewrite verifyDependencies_found.
  - apply first_missing in H as (found & program & rest & Hd & Hf & Hp).
    by rewrite (verifyDependencies_missing status found program rest).
Qed.

(** X16.  When a program is missing, [verifyDependencies] runs [which] for
    the programs of the list up to the first missing one and for no later
    one, reports that one as missing and exits; on that path the file
    opened on the null device is not closed.  When none is missing it
    probes all of them and closes the file. *)
Theorem verifyDependencies_stops_at_first_missing (status : list string → Z) :
  (∀ found program rest,
     dependencies = found ++ program :: rest →
     Forall (λ program, status ["which"; program] = 0) found →
     status ["which"; program] ≠ 0 →
     verifyDependencies status
     = (Exited 1,
        open_devnull
        :: ((λ program, call ["which"; program]) <$> found ++ [program])
        ++ [log_error (missing_message program)]))
  ∧ (Forall (λ program, status ["which"; program] = 0) dependencies →
     verifyDependencies status
     = (Returned tt,
        open_devnull
        :: ((λ program, call ["which"; program]) <$> dependencies)
        ++ [close_devnull])).
Proof.
  split; [apply verifyDependencies_missing|apply verifyDependencies_found].
Qed.

Lemma verifyDependencies_stops_at_first_missing_witness :
  verifyDependencies no_nlsr
  = (Exited 1,
     [open_devnull; call ["which"; "nfd"]; call ["which"; "nlsr"];
      log_error (missing_message "nlsr")])
  ∧ verifyDependencies all_installed
    = (Returned tt,
       [open_devnull; call ["which"; "nfd"]; call ["which"; "nlsr"];
        call ["which"; "infoedit"]; call ["which"; "ndnping"];
        call ["which"; "ndnpingserver"]; close_devnull]).
Proof.
  split.
  - apply (proj1 (verifyDependencies_stops_at_first_missing no_nlsr)
             ["nfd"] "nlsr" ["infoedit"; "ndnping"; "ndnpingserver"]).
    + reflexivity.
    + by repeat constructor.
    + discriminate.
  - apply (proj2 (verifyDependencies_stops_at_first_missing all_installed)).
    by repeat constructor.
Defined.

End DependenciesTheorems.

(** ** From the constructor to [stop] *)

Module LifecycleMore.
Import Py PyFacts Minindn Connectivity TopologyFacts LifecycleFacts
  ConstructorFacts Samples.

(** X17.  An object that the constructor has just returned has no cleanup
    registered, so the first call of [stop] on it is the one that stops
    the network.  Whether it then collects results is decided by the
    command line: without a result directory it returns at once; with
    one it logs, creates the directory and calls [shutil.move] on the
    first paths that the pattern under the working directory of the
    command line matches, on all of them and then returning when every
    move returns. *)
Theorem stop_after_init {F} (float_of_str : string → option F)
    (float_of_int : Z → F) (read_config : string → gmap string Items)
    (build : option (Topo F) → Mininet) (glob : string → list string)
    (shutil_move_raises : list string → string → string → option Exn)
    (args : Args) (topo : option (Topo F)) (topoFile : option string)
    (noTopo : bool) (cls : ClassAttrs) (self : Self F) (evs : list Event) :
  init float_of_str float_of_int read_config build args topo topoFile noTopo
  = (Returned (cls, self), evs) →
  match args_resultDir args with
  | None => stop glob shutil_move_raises cls self = (Returned tt, [net_stop])
  | Some dir =>
      ∃ o files,
        stop glob shutil_move_raises cls self
        = (o, stop_calls [] dir ++ ((λ file, shutil_move file dir) <$> files))
        ∧ files `prefix_of` glob (args_workDir args +:+ "/*")
        ∧ (moves_return shutil_move_raises dir (glob (args_workDir args +:+ "/*")) →
           o = Returned tt ∧ files = glob (args_workDir args +:+ "/*"))
  end.
Proof.
  intros H. apply (f_equal fst) in H. rewrite init_outcome in H. cbn [fst] in H.
  destruct (settle_topo _ _ _ _ _ _).1 as [topo'|e|n]; [|done..].
  injection H as <- <-. unfold stop, stop_calls.
  cbn [self_cleanups resultDir workDir].
  rewrite for_each_emit, bind_Returned, emit_bind. cbn [fmap list_fmap app].
  destruct (args_resultDir args) as [dir|]; [|done].
  rewrite !emit_bind.
  destruct (moves_prefix shutil_move_raises dir (glob (args_workDir args +:+ "/*")) [])
    as (done & Hp & Hdone & _).
  destruct (for_each _ _ _) as [o moved] eqn:Hloop. cbn [snd] in Hdone. subst moved.
  exists (match o with
          | Returned _ => Returned tt
          | Raised e => Raised e
          | Exited n => Exited n
          end), done.
  split.
  { destruct o; rewrite ?bind_Returned, ?bind_Raised, ?bind_Exited, ?mret_eq;
      cbn [fst snd]; by rewrite ?app_nil_r. }
  split; [done|].
  intros Hall. rewrite moves_all in Hloop by done.
  injection Hloop as <- Heq. split; [done|].
  assert (Hinj : Inj (=) (=) (λ file, shutil_move file dir)).
  { by intros ?? [= ->]. }
  by apply (inj (fmap (λ file, shutil_move file dir))).
Qed.

Lemma stop_after_init_witness :
  ∃ o files,
    stop (F := string) three_files nothing_there
      (mkClassAttrs "/tmp/minindn" (Some "/results"))
      (mkSelf "topology.conf" (Some []) (chain 3) [])
    = (o, stop_calls [] "/results" ++ ((λ file, shutil_move file "/results") <$> files))
    ∧ files `prefix_of` three_files "/tmp/minindn/*"
    ∧ (moves_return nothing_there "/results" (three_files "/tmp/minindn/*") →
       o = Returned tt ∧ files = three_files "/tmp/minindn/*").
Proof.
  destruct (init text_float text_of_int (λ _, triangle) (λ _, chain 3)
              (mkArgs "topology.conf" "/tmp/minindn" (Some "/results"))
              (Some []) None false) as [o evs] eqn:H.
  assert (Ho : o = Returned (mkClassAttrs "/tmp/minindn" (Some "/results"),
                             mkSelf "topology.conf" (Some []) (chain 3) [])).
  { revert H. vm_compute. by intros [= <- _]. }
  subst o.
  apply (stop_after_init text_float text_of_int (λ _, triangle) (λ _, chain 3)
           three_files nothing_there _ _ _ _ _ _ _ H).
Defined.

(** X18.  When the constructor returns, every host of the network has been
    told its working and home directory, the home directory being the
    working directory followed by the name of the host, and has been asked
    to create that directory and then to make it its [HOME]. *)
Theorem init_prepares_every_host {F} (float_of_str : string → option F)
    (float_of_int : Z → F) (read_config : string → gmap string Items)
    (build : option (Topo F) → Mininet)
    (args : Args) (topo : option (Topo F)) (topoFile : option string)
    (noTopo : bool) (cls : ClassAttrs) (self : Self F) (evs : list Event) :
  init float_of_str float_of_int read_config build args topo topoFile noTopo
  = (Returned (cls, self), evs) →
  ∀ host, host ∈ hosts (self_net self) →
    ∃ before after,
      evs = before
            ++ [setParam host "workDir" (args_workDir args);
                setParam host "homeDir"
                  (args_workDir args +:+ "/" +:+ name (self_net self) host);
                cmd host ("mkdir -p "
                          +:+ (args_workDir args +:+ "/" +:+ name (self_net self) host));
                cmd host ("export HOME="
                          +:+ (args_workDir args +:+ "/" +:+ name (self_net self) host)
                          +:+ " && cd ~")]
            ++ after.
Proof.
  intros H host Hhost. rewrite init_eq in H.
  apply bind_Returned_inv in H as (topo' & e1 & r1 & H1 & H & ->).
  cbv zeta in H.
  apply bind_Returned_inv in H as ([] & e2 & r2 & H2 & H & ->).
  apply bind_Returned_inv in H as ([] & e3 & e4 & H3 & H & ->).
  rewrite mret_eq in H. injection H as <- <- <-. cbn [self_net] in *.
  rewrite initParams_trace in H2. injection H2 as <-. cbn [workDir].
  apply list_elem_of_split in Hhost as (hs1 & hs2 & ->).
  rewrite bind_app, bind_cons.
  match goal with
  | |- context [?l1 ++ ?four ++ ?l2] =>
      match l1 with context [hs1] =>
        match l2 with context [hs2] => exists (e1 ++ l1), (l2 ++ e3 ++ []) end
      end
  end.
  by rewrite <- !(assoc_L (++)).
Qed.

Lemma init_prepares_every_host_witness :
  ∃ before after,
    (init text_float text_of_int (λ _, triangle) (λ _, chain 3)
       (mkArgs "topology.conf" "/tmp/minindn" None) (Some []) None false).2
    = before
      ++ [setParam 1%nat "workDir" "/tmp/minindn";
          setParam 1%nat "homeDir" "/tmp/minindn/h1";
          cmd 1%nat "mkdir -p /tmp/minindn/h1";
          cmd 1%nat "export HOME=/tmp/minindn/h1 && cd ~"]
      ++ after.
Proof.
  destruct (init text_float text_of_int (λ _, triangle) (λ _, chain 3)
              (mkArgs "topology.conf" "/tmp/minindn" None)
              (Some []) None false) as [o evs] eqn:H.
  assert (Ho : o = Returned (mkClassAttrs "/tmp/minindn" None,
                             mkSelf "topology.conf" (Some []) (chain 3) [])).
  { revert H. vm_compute. by intros [= <- _]. }
  subst o. cbn [snd].
  apply (init_prepares_every_host text_float text_of_int (λ _, triangle)
           (λ _, chain 3) _ _ _ _ _ _ _ H 1%nat).
  vm_compute. apply list_elem_of_further, list_elem_of_here.
Defined.

End LifecycleMore.
